(** * NeuroSync Trainer Lite: CSV export and multi-GPU training helpers

    A shallow embedding of [utils/csv/save_csv.py] and of the replica
    bookkeeping of [utils/training_helpers.py], with the properties the
    specification states about them and further properties of the code. *)

From Stdlib Require Import ZArith NArith Bool Ascii String List Lia.
From Stdlib Require Import SpecFloat.
From stdpp Require Import base option list gmap strings fin_maps.

Set Default Proof Using "Type".
Set Warnings "-register-all".

(** ** Python [float]: IEEE 754 binary64

    Python's [float] is a C [double].  Its arithmetic is written here with
    the Standard Library's executable specification of binary64
    ([SpecFloat]), so that every intermediate rounding of the timecode
    computation is the one the interpreter performs. *)
Module Binary64.

Local Open Scope Z_scope.

Definition prec : Z := 53.
Definition emax : Z := 1024.

Definition float : Type := spec_float.

(** [float(z)] for a Python int, and int-by-int true division below. *)
Definition of_int (z : Z) : float := binary_normalize prec emax z 0 false.

Definition mul : float -> float -> float := SFmul prec emax.
Definition div : float -> float -> float := SFdiv prec emax.
Definition sub : float -> float -> float := SFsub prec emax.
Definition add : float -> float -> float := SFadd prec emax.
Definition ltb : float -> float -> bool := SFltb.

Definition is_zero (x : float) : bool :=
  match x with S754_zero _ => true | _ => false end.

(** [int(x)]: truncation toward zero (finite arguments only; Python
    raises on infinities and NaN, which the callers below never build). *)
Definition to_int (x : float) : Z :=
  match x with
  | S754_finite s m e =>
      let a := if 0 <=? e then Z.pos m * 2 ^ e else Z.pos m / 2 ^ (- e) in
      if s then - a else a
  | _ => 0
  end.

(** C [floor] on a non-negative argument. *)
Definition floor (x : float) : float := of_int (to_int x).

(** C [fmod] on non-negative finite arguments: the exact remainder, which
    is always representable. *)
Definition fmod (x y : float) : float :=
  match x, y with
  | S754_finite false mx ex, S754_finite false my ey =>
      let e := Z.min ex ey in
      let X := Z.pos mx * 2 ^ (ex - e) in
      let Y := Z.pos my * 2 ^ (ey - e) in
      binary_normalize prec emax (X mod Y) e false
  | S754_zero s, S754_finite _ _ _ => S754_zero s
  | _, _ => S754_nan
  end.

(** CPython's [float_divmod] (Objects/floatobject.c) for a non-negative
    dividend and a positive divisor: [fmod], then the quotient
    [(vx - mod) / wx] snapped to the nearest integral value. *)
Definition divmod (vx wx : float) : float * float :=
  let md := fmod vx wx in
  let dv := div (sub vx md) wx in
  let md := if is_zero md then S754_zero false else md in
  let floordiv :=
    if is_zero dv then S754_zero false
    else
      let fl := floor dv in
      if ltb (div (of_int 1) (of_int 2)) (sub dv fl)
      then add fl (of_int 1) else fl in
  (floordiv, md).

End Binary64.

(** ** Format specifications of f-strings: [{n:02}] and [{n:03}] *)
Module Fmt.

Definition digit (d : N) : ascii :=
  ascii_of_N (48 + d).

Fixpoint digits_go (fuel : nat) (n : N) (acc : string) : string :=
  match fuel with
  | O => acc
  | S fuel' =>
      let acc' := String (digit (n mod 10)) acc in
      if (n <? 10)%N then acc' else digits_go fuel' (n / 10)%N acc'
  end.

(** [str(n)] for a non-negative int. *)
Definition str_N (n : N) : string :=
  digits_go (S (N.size_nat n)) n EmptyString.

Fixpoint zeros (k : nat) : string :=
  match k with O => EmptyString | S k' => String "0"%char (zeros k') end.

(** [format(z, "0w")]: zero padding to a minimum width, sign-aware. *)
Definition zfill (width : nat) (z : Z) : string :=
  let body := str_N (Z.abs_N z) in
  if (z <? 0)%Z
  then String "-"%char (zeros (width - 1 - String.length body) ++ body)
  else (zeros (width - String.length body) ++ body)%string.

End Fmt.

(** ** [utils/csv/save_csv.py] *)
Module SaveCsv.

Import Binary64.
Local Open Scope string_scope.

Definition base_columns : list string :=
  [ "Timecode"; "BlendshapeCount"; "EyeBlinkLeft"; "EyeLookDownLeft";
    "EyeLookInLeft"; "EyeLookOutLeft"; "EyeLookUpLeft";
    "EyeSquintLeft"; "EyeWideLeft"; "EyeBlinkRight"; "EyeLookDownRight";
    "EyeLookInRight"; "EyeLookOutRight"; "EyeLookUpRight";
    "EyeSquintRight"; "EyeWideRight"; "JawForward"; "JawRight"; "JawLeft";
    "JawOpen"; "MouthClose"; "MouthFunnel"; "MouthPucker";
    "MouthRight"; "MouthLeft"; "MouthSmileLeft"; "MouthSmileRight";
    "MouthFrownLeft"; "MouthFrownRight"; "MouthDimpleLeft";
    "MouthDimpleRight"; "MouthStretchLeft"; "MouthStretchRight";
    "MouthRollLower"; "MouthRollUpper"; "MouthShrugLower";
    "MouthShrugUpper"; "MouthPressLeft"; "MouthPressRight";
    "MouthLowerDownLeft"; "MouthLowerDownRight"; "MouthUpperUpLeft";
    "MouthUpperUpRight"; "BrowDownLeft"; "BrowDownRight"; "BrowInnerUp";
    "BrowOuterUpLeft"; "BrowOuterUpRight"; "CheekPuff";
    "CheekSquintLeft"; "CheekSquintRight"; "NoseSneerLeft";
    "NoseSneerRight"; "TongueOut"; "HeadYaw"; "HeadPitch"; "HeadRoll";
    "LeftEyeYaw"; "LeftEyePitch"; "LeftEyeRoll"; "RightEyeYaw";
    "RightEyePitch"; "RightEyeRoll" ].

Definition emotion_columns : list string :=
  [ "Angry"; "Disgusted"; "Fearful"; "Happy"; "Neutral"; "Sad";
    "Surprised" ].

(** The 61 blendshape channel names: [base_columns] without its two
    leading bookkeeping columns. *)
Definition blendshape_names : list string := drop 2 base_columns.

(** *** Timecodes (the body of the [for i in range(frame_count)] loop) *)

Definition frame_rate : Z := 60.

(** [1 / frame_rate] *)
Definition frame_duration : float := div (of_int 1) (of_int frame_rate).

Record timecode_fields := TC {
  tc_hours : Z; tc_minutes : Z; tc_seconds : Z;
  tc_frame : Z; tc_millis : Z
}.

Definition timecode_fields_of (i : nat) : timecode_fields :=
  let total_seconds := mul (of_int (Z.of_nat i)) frame_duration in
  let '(hours, remainder) := divmod total_seconds (of_int 3600) in
  let '(minutes, seconds) := divmod remainder (of_int 60) in
  let milliseconds :=
    mul (sub seconds (of_int (to_int seconds))) (of_int 1000) in
  let frame_number :=
    to_int (div milliseconds (div (of_int 1000) (of_int frame_rate))) in
  TC (to_int hours) (to_int minutes) (to_int seconds)
     frame_number (to_int milliseconds).

Definition format_timecode (t : timecode_fields) : string :=
  Fmt.zfill 2 (tc_hours t) ++ ":" ++ Fmt.zfill 2 (tc_minutes t) ++ ":" ++
  Fmt.zfill 2 (tc_seconds t) ++ ":" ++ Fmt.zfill 2 (tc_frame t) ++ "." ++
  Fmt.zfill 3 (tc_millis t).

Definition timecode (i : nat) : string :=
  format_timecode (timecode_fields_of i).

Definition fields (t : timecode_fields) : list Z :=
  [tc_hours t; tc_minutes t; tc_seconds t; tc_frame t; tc_millis t].

Fixpoint lex_le (a b : list Z) : bool :=
  match a, b with
  | x :: a', y :: b' => (x <? y)%Z || ((x =? y)%Z && lex_le a' b')
  | [], _ => true
  | _ :: _, [] => false
  end.

(** The order of timecodes as points in time, field by field. *)
Definition timecode_le (a b : timecode_fields) : bool :=
  lex_le (fields a) (fields b).

(** The timecode of the frame that starts second [k]. *)
Definition whole_second (k : nat) : timecode_fields :=
  TC (Z.of_nat (k / 3600)) (Z.of_nat (k / 60 mod 60)) (Z.of_nat (k mod 60))
     0 0.

(** The frames among the first [n] whose frame field is not their index
    within the second. *)
Definition stale_frames (n : nat) : list nat :=
  filter (λ i, tc_frame (timecode_fields_of i) ≠ Z.of_nat (i mod 60))
         (seq 0 n).

(** *** Arrays, frames and files *)

(** A two-dimensional [numpy] array: its [shape] and its rows. *)
Record ndarray (E : Type) := NdArray {
  shape0 : nat;
  shape1 : nat;
  rows : list (list E)
}.
Arguments NdArray {E} _ _ _.
Arguments shape0 {E} _.
Arguments shape1 {E} _.
Arguments rows {E} _.

Definition ndarray_wf {E} (a : ndarray E) : Prop :=
  length (rows a) = shape0 a ∧ Forall (λ r, length r = shape1 a) (rows a).

(** [a[:, :k]] *)
Definition slice_columns {E} (k : nat) (a : ndarray E) : ndarray E :=
  NdArray (shape0 a) (k `min` shape1 a) (take k <$> rows a).

(** [np.array(l).reshape(-1, 1)] *)
Definition column {E} (l : list E) : ndarray E :=
  NdArray (length l) 1 ((λ x, [x]) <$> l).

(** [np.full((n, 1), x)] *)
Definition full_column {E} (n : nat) (x : E) : ndarray E :=
  NdArray n 1 (replicate n [x]).

(** [np.hstack((a, b, c))] on arrays with the same number of rows. *)
Definition hstack {E} (a b c : ndarray E) : ndarray E :=
  NdArray (shape0 a) (shape1 a + shape1 b + shape1 c)
          (zip_with (λ ra bc, (ra ++ bc.1 ++ bc.2)%list) (rows a)
                    (zip (rows b) (rows c))).

Section Saving.

(** The element type of the generated matrix. *)
Context {A : Type}.

(** What a cell of the stacked array holds: a timecode, the channel
    count, or an element of the input. *)
Inductive cell :=
| Text (s : string)
| Count (n : nat)
| Value (a : A).

Record DataFrame := {
  columns : list string;
  values : list (list cell)
}.

(** The CSV file [to_csv(path, index=False)] leaves behind: the header
    line and one record per frame. *)
Record csv := { header : list string; records : list (list cell) }.

Inductive exn :=
| ValueError_columns (got : nat)
    (** line 26: "Expected generated data to have 68 or 61 columns" *)
| ValueError_DataFrame (passed implied : nat * nat)
    (** [pd.DataFrame]: the data's shape against the shape the labels imply *).

(** [pd.DataFrame(data, columns=labels)] *)
Definition DataFrame_new (data : ndarray cell) (labels : list string)
  : exn + DataFrame :=
  if decide (shape1 data = length labels)
  then inr {| columns := labels; values := rows data |}
  else inl (ValueError_DataFrame (shape0 data, shape1 data)
                                 (shape0 data, length labels)).

Definition to_csv (df : DataFrame) : csv :=
  {| header := columns df; records := values df |}.

Definition timecodes (frame_count : nat) : list string :=
  timecode <$> seq 0 frame_count.

(** The closing [print] goes to standard output and is left out. *)
Definition save_generated_data_as_csv
    (generated : ndarray A) (output_path : string)
    (include_emotion_dimensions : bool) (fs : gmap string csv)
  : (exn + unit) * gmap string csv :=
  if negb (bool_decide (shape1 generated ∈ [68; 61]))
  then (inl (ValueError_columns (shape1 generated)), fs)
  else
    let '(selected_columns, selected_data) :=
      if include_emotion_dimensions
      then ((base_columns ++ emotion_columns)%list, generated)
      else (base_columns, slice_columns 61 generated) in
    let frame_count := shape0 generated in
    let timecodes := column (Text <$> timecodes frame_count) in
    let blendshape_counts :=
      full_column frame_count (Count (shape1 selected_data)) in
    let data :=
      hstack timecodes blendshape_counts
             (NdArray (shape0 selected_data) (shape1 selected_data)
                      (fmap (M:=list) Value <$> rows selected_data)) in
    match DataFrame_new data selected_columns with
    | inl e => (inl e, fs)
    | inr df => (inr (), <[output_path := to_csv df]> fs)
    end.

(** The records of the stacked array, row by row. *)
Definition stacked (k : nat) (rs : list (list A)) (n : nat)
  : list (list cell) :=
  rows (hstack (column (Text <$> timecodes n)) (full_column n (Count k))
               (NdArray n k (fmap (M:=list) Value <$> rs))).

(** The file a successful call leaves under [output_path]. *)
Definition written (generated : ndarray A)
    (include_emotion_dimensions : bool)
  : csv :=
  if include_emotion_dimensions
  then {| header := (base_columns ++ emotion_columns)%list;
          records := stacked (shape1 generated) (rows generated)
                             (shape0 generated) |}
  else {| header := base_columns;
          records := stacked (61 `min` shape1 generated)
                             (take 61 <$> rows generated)
                             (shape0 generated) |}.

(** *** The schema as the specification words it *)

Definition schema (include_emotion_dimensions : bool) : list string :=
  ("Timecode" :: "BlendshapeCount" :: blendshape_names ++
   (if include_emotion_dimensions then emotion_columns else []))%list.

(** The call wrote, under [output_path], a file with the requested
    schema and one record per input row. *)
Definition writes_schema (generated : ndarray A) (output_path : string)
    (include_emotion_dimensions : bool) (fs : gmap string csv) : Prop :=
  let r := save_generated_data_as_csv generated output_path
             include_emotion_dimensions fs in
  ∃ f, r = (inr (), <[output_path := f]> fs) ∧
       header f = schema include_emotion_dimensions ∧
       length (records f) = shape0 generated ∧
       Forall (λ rec, length rec = length (header f)) (records f).

End Saving.

Arguments cell : clear implicits.
Arguments csv : clear implicits.
Arguments exn : clear implicits.
Arguments DataFrame : clear implicits.

(** An [n]-by-[c] matrix whose every row counts [0 .. c-1]. *)
Definition sample (n c : nat) : ndarray nat :=
  NdArray n c (replicate n (seq 0 c)).

End SaveCsv.
(** ** [utils/training_helpers.py]: replicas on several devices

    A replica is the list of its [Parameter] objects, in the order of
    [model.parameters()].  The objects live in one store, so that a write
    through one replica is seen through every list that holds the same
    object. *)
Module Torch.

(** [torch.device("cuda:i")] *)
Definition device : Type := nat.

(** The identity of a [Parameter] object. *)
Definition loc : Type := nat.

Section Tensors.

(** What a tensor holds (shape, dtype and numbers). *)
Context {T : Type}.

Record tensor := Tensor { payload : T; dev : device }.

(** [t.to(d)] *)
Definition to (d : device) (t : tensor) : tensor := Tensor (payload t) d.

(** [dst.copy_(src)]: the values of [src], in the storage of [dst]. *)
Definition copy_ (dst src : tensor) : tensor := Tensor (payload src) (dev dst).

Record parameter := Param { data : tensor; grad : option tensor }.

End Tensors.

Arguments tensor : clear implicits.
Arguments parameter : clear implicits.

(** What the code calls but does not define: tensor arithmetic, the float
    arithmetic of Python, autograd, the [GradScaler] and the optimizer.
    [F] is Python's float, [Loss] a loss tensor with its graph, [L] the
    state the optimizer and the scaler keep between calls. *)
Class Library (T F Loss L : Type) := {
  tensor_div : T → F → T;
    (** [t / s] *)
  stack_mean : list T → T;
    (** [torch.mean(torch.stack(ts, dim=0), dim=0)] *)
  zeros_like : T → T;
    (** what [t.zero_()] leaves in [t] *)
  norm_item : T → F;
    (** [t.norm(2).item()] *)
  float_zero : F;
  float_add : F → F → F;
  float_pow2 : F → F;
    (** [x ** 2] *)
  float_sqrt : F → F;
    (** [x ** (1. / 2)] *)
  scale_loss : L → Loss → Loss;
    (** [grad_scaler.scale(loss)] *)
  backward : Loss → gmap loc (parameter T) → gmap loc (parameter T);
    (** [loss.backward()] *)
  unscale_ : L → gmap loc (parameter T) → L * gmap loc (parameter T);
    (** [grad_scaler.unscale_(optimizer)] *)
  get_scale : L → F;
  clip_grad_norm_ :
    list loc → F → gmap loc (parameter T) → gmap loc (parameter T);
    (** [torch.nn.utils.clip_grad_norm_(model.parameters(), clip)] *)
  optimizer_step : L → gmap loc (parameter T) → L * gmap loc (parameter T);
  scaler_step : L → gmap loc (parameter T) → L * gmap loc (parameter T);
    (** [grad_scaler.step(optimizer)] *)
  scaler_update : L → L
}.

(** Operations issued to the devices and to the library, in program
    order. *)
Inductive event {Loss : Type} :=
| EvBackward (scaled : bool) (loss : Loss)
| EvUnscale
| EvDivGrad (p : loc)
| EvSynchronize (d : device)
| EvCopyGrad (p : loc)
| EvClipGradNorm
| EvOptimizerStep
| EvScalerStep
| EvScalerUpdate
| EvCopyData (p : loc)
| EvZeroGrad (p : loc).
Arguments event : clear implicits.

Inductive exn := IndexError.

Section Helpers.

Context {T F Loss L : Type} {torch : Library T F Loss L}.

Record world := World {
  heap : gmap loc (parameter T);
  lib : L;
  trace : list (event Loss)
}.

(** Computations that read and write the world and may raise. *)
Definition M (A : Type) : Type := world → (exn + A) * world.

Definition ret {A} (a : A) : M A := λ w, (inr a, w).

Definition bind {A B} (m : M A) (k : A → M B) : M B :=
  λ w, match m w with
       | (inr a, w') => k a w'
       | (inl e, w') => (inl e, w')
       end.

Definition raise {A} (e : exn) : M A := λ w, (inl e, w).

Definition update (f : world → world) : M unit := λ w, (inr (), f w).

Definition read {A} (f : world → A) : M A := λ w, (inr (f w), w).

(** [for x in l: body] *)
Fixpoint for_ {A} (l : list A) (body : A → M unit) : M unit :=
  match l with
  | [] => ret ()
  | x :: l' => bind (body x) (λ _, for_ l' body)
  end.

(** [l[i]] *)
Definition index {A} (l : list A) (i : nat) : M A :=
  match l !! i with
  | Some x => ret x
  | None => raise IndexError
  end.

(** The tuple of the [j]-th elements of the lists [ls], if every list has
    one. *)
Definition column_at {A} (ls : list (list A)) (j : nat) : option (list A) :=
  mapM (λ l : list A, l !! j) ls.

(** [zip] over the unpacked list [ls]: the tuples of corresponding
    elements, as far as the shortest list goes; none for no list. *)
Definition zip_star {A} (ls : list (list A)) : list (list A) :=
  omap (column_at ls) (seq 0 (length (default [] (head ls)))).

Definition log (e : event Loss) (w : world) : world :=
  World (heap w) (lib w) (trace w ++ [e]).

Definition set_heap (h : gmap loc (parameter T)) (w : world) : world :=
  World h (lib w) (trace w).

(** [p.grad], [None] too when the object is unknown to the store. *)
Definition grad_of (h : gmap loc (parameter T)) (p : loc)
  : option (tensor T) :=
  h !! p ≫= grad.

(** *** Library calls *)

Definition backward_step (scaled : bool) (loss : Loss) (w : world) : world :=
  let loss' := if scaled then scale_loss (lib w) loss else loss in
  log (EvBackward scaled loss) (set_heap (backward loss' (heap w)) w).

Definition unscale_step (w : world) : world :=
  let '(l, h) := unscale_ (lib w) (heap w) in
  World h l (trace w ++ [EvUnscale]).

Definition clip_step (params : list loc) (clip : F) (w : world) : world :=
  log EvClipGradNorm (set_heap (clip_grad_norm_ params clip (heap w)) w).

Definition optimizer_step_step (w : world) : world :=
  let '(l, h) := optimizer_step (lib w) (heap w) in
  World h l (trace w ++ [EvOptimizerStep]).

Definition scaler_step_step (w : world) : world :=
  let '(l, h) := scaler_step (lib w) (heap w) in
  World h l (trace w ++ [EvScalerStep]).

Definition scaler_update_step (w : world) : world :=
  World (heap w) (scaler_update (lib w)) (trace w ++ [EvScalerUpdate]).

Definition call_backward (scaled : bool) (loss : Loss) : M unit :=
  update (backward_step scaled loss).

Definition call_unscale_ : M unit := update unscale_step.

Definition synchronize (d : device) : M unit :=
  update (log (EvSynchronize d)).

Definition call_clip_grad_norm_ (params : list loc) (clip : F) : M unit :=
  update (clip_step params clip).

Definition call_optimizer_step : M unit := update optimizer_step_step.

Definition call_scaler_step : M unit := update scaler_step_step.

Definition call_scaler_update : M unit := update scaler_update_step.

(** *** Writes to parameters *)

Definition div_param (scale : F) (p : parameter T) : parameter T :=
  Param (data p)
        ((λ g, Tensor (tensor_div (payload g) scale) (dev g)) <$> grad p).

Definition div_grad_step (scale : F) (p : loc) (w : world) : world :=
  match grad_of (heap w) p with
  | Some _ =>
      log (EvDivGrad p) (set_heap (alter (div_param scale) p (heap w)) w)
  | None => w
  end.

(** [if p.grad is not None: p.grad.data = p.grad.data / scale] *)
Definition div_grad (scale : F) (p : loc) : M unit :=
  update (div_grad_step scale p).

(** [torch.mean(torch.stack(grads, dim=0), dim=0)] on tensors of one
    device [d]. *)
Definition mean_stacked (d : device) (grads : list (tensor T)) : tensor T :=
  Tensor (stack_mean (payload <$> grads)) d.

(** [p.grad.data.copy_(src)] *)
Definition copy_grad (src : tensor T) (p : parameter T) : parameter T :=
  Param (data p) ((λ g, copy_ g src) <$> grad p).

Definition copy_grad_step (p0 : loc) (src : tensor T) (w : world) : world :=
  log (EvCopyGrad p0) (set_heap (alter (copy_grad src) p0 (heap w)) w).

(** The body of the averaging loop for one tuple of corresponding
    parameters. *)
Definition average_tuple (devices : list device) (param_tuple : list loc)
  : M unit :=
  bind (read heap) (λ h,
  match mapM (grad_of h) param_tuple with
  | Some gs =>
      bind (index devices 0) (λ d0,
      let grads := to d0 <$> gs in
      let avg_grad := mean_stacked d0 grads in
      bind (index param_tuple 0) (λ p0,
      update (copy_grad_step p0 avg_grad)))
  | None => ret ()
  end).

(** What [average_tuple] does to the world when [devices[0]] and
    [param_tuple[0]] exist. *)
Definition average_step (d0 : device) (param_tuple : list loc) (w : world)
  : world :=
  match mapM (grad_of (heap w)) param_tuple, head param_tuple with
  | Some gs, Some p0 => copy_grad_step p0 (mean_stacked d0 (to d0 <$> gs)) w
  | _, _ => w
  end.

Definition gradient_norm (model : list loc) (h : gmap loc (parameter T)) : F :=
  float_sqrt
    (foldl (λ total_norm p,
              match grad_of h p with
              | Some g =>
                  float_add total_norm (float_pow2 (norm_item (payload g)))
              | None => total_norm
              end)
           float_zero model).

Definition calculate_gradient_norm (model : list loc) : M F :=
  read (λ w, gradient_norm model (heap w)).

(** The optimizer and the scaler the Python function is handed are the
    library state [lib] of the world. *)
Definition _backward_and_step_multi_gpu
    (losses : list Loss) (models : list (list loc)) (devices : list device)
    (clip : F) (use_amp : bool) : M F :=
  bind
    (if use_amp
     then
       bind (for_ losses (call_backward true)) (λ _,
       bind call_unscale_ (λ _,
       bind (read (λ w, get_scale (lib w))) (λ scale,
       for_ (drop 1 models) (λ model, for_ model (div_grad scale)))))
     else for_ losses (call_backward false)) (λ _,
  bind (for_ devices synchronize) (λ _,
  bind (for_ (zip_star models) (average_tuple devices)) (λ _,
  bind (index models 0) (λ model_0,
  bind (calculate_gradient_norm model_0) (λ pre_clip_norm,
  bind (call_clip_grad_norm_ model_0 clip) (λ _,
  bind (if use_amp
        then bind call_scaler_step (λ _, call_scaler_update)
        else call_optimizer_step) (λ _,
  ret pre_clip_norm))))))).

Definition copy_data_step (p0 p_other : loc) (w : world) : world :=
  match heap w !! p0, heap w !! p_other with
  | Some src, Some dst =>
      let moved := to (dev (data dst)) (data src) in
      log (EvCopyData p_other)
          (set_heap (<[p_other := Param (copy_ (data dst) moved) (grad dst)]>
                       (heap w)) w)
  | _, _ => w
  end.

(** [p_other.data.copy_(p0.data.to(p_other.device))] *)
Definition copy_data (p0 p_other : loc) : M unit :=
  update (copy_data_step p0 p_other).

Definition zero_ (g : tensor T) : tensor T :=
  Tensor (zeros_like (payload g)) (dev g).

Definition zero_param (p : parameter T) : parameter T :=
  Param (data p) (zero_ <$> grad p).

Definition zero_grad_step (p : loc) (w : world) : world :=
  match grad_of (heap w) p with
  | Some _ => log (EvZeroGrad p) (set_heap (alter zero_param p (heap w)) w)
  | None => w
  end.

(** [if p.grad is not None: p.grad.zero_()] *)
Definition zero_grad (p : loc) : M unit := update (zero_grad_step p).

Definition _sync_models (models : list (list loc)) : M unit :=
  bind
    (for_ (drop 1 models) (λ m,
       bind (index models 0) (λ model_0,
       for_ (zip model_0 m) (λ pp, copy_data pp.1 pp.2)))) (λ _,
  for_ (drop 1 models) (λ m, for_ m zero_grad)).

(** *** The phases of a training step, as the specification words them *)

(** The library's part before the gradients are touched by hand: one
    backward pass per loss and, under AMP, the scaler's own unscaling. *)
Definition backward_pass (use_amp : bool) (losses : list Loss) (w : world)
  : world :=
  let w' := foldl (λ w loss, backward_step use_amp loss w) w losses in
  if use_amp then unscale_step w' else w'.

(** The library's part after the averaging: clip, then step once. *)
Definition clip_then_step (use_amp : bool) (model_0 : list loc) (clip : F)
    (w : world) : world :=
  let w' := clip_step model_0 clip w in
  if use_amp then scaler_update_step (scaler_step_step w')
  else optimizer_step_step w'.

(** The primary parameters whose whole tuple has gradients, with the
    gradients of the tuple. *)
Definition averaged_at (models : list (list loc))
    (h : gmap loc (parameter T)) (j : nat) : option (loc * list (tensor T)) :=
  tup ← column_at models j;
  gs ← mapM (grad_of h) tup;
  p0 ← head tup;
  Some (p0, gs).

(** The store after the averaged gradients of a list of tuples are
    written to their primary parameters. *)
Definition write_averages (d0 : device) (h : gmap loc (parameter T))
    (plan : list (loc * list (tensor T))) : gmap loc (parameter T) :=
  foldl (λ h' pg, alter (copy_grad (mean_stacked d0 (to d0 <$> pg.2))) pg.1 h')
        h plan.

Definition averaged (models : list (list loc)) (h : gmap loc (parameter T))
  : list loc :=
  fst <$> omap (averaged_at models h)
               (seq 0 (length (default [] (head models)))).

End Helpers.

Arguments world : clear implicits.
Arguments M : clear implicits.

(** *** A library over the integers, to run the definitions

    A tensor holds one number, the mean is the integer mean, and the
    calls the code delegates to the library leave the store alone. *)
Definition integer_library : Library Z Z unit unit := {|
  tensor_div := Z.div;
  stack_mean := λ ts, (foldr Z.add 0 ts / Z.of_nat (length ts))%Z;
  zeros_like := λ _, 0%Z;
  norm_item := Z.abs;
  float_zero := 0%Z;
  float_add := Z.add;
  float_pow2 := λ x, (x * x)%Z;
  float_sqrt := Z.sqrt;
  scale_loss := λ _ loss, loss;
  backward := λ _ h, h;
  unscale_ := λ l h, (l, h);
  get_scale := λ _, 2%Z;
  clip_grad_norm_ := λ _ _ h, h;
  optimizer_step := λ l h, (l, h);
  scaler_step := λ l h, (l, h);
  scaler_update := λ l, l
|}.

(** Two replicas of two parameters each: objects 0 and 1 on device 0,
    objects 2 and 3 on device 1.  The second parameter of the primary has
    no gradient. *)
Definition two_replicas : list (list loc) := [[0; 1]; [2; 3]].

Definition two_replicas_world : world Z unit unit :=
  World (list_to_map
           [ (0, Param (Tensor 100%Z 0) (Some (Tensor 8%Z 0)));
             (1, Param (Tensor 200%Z 0) None);
             (2, Param (Tensor 300%Z 1) (Some (Tensor 6%Z 1)));
             (3, Param (Tensor 400%Z 1) (Some (Tensor 10%Z 1))) ])
        tt [].

End Torch.

(** ** [utils/training_helpers.py]: checkpoints and initialization *)
Module Checkpoint.

Import Torch.

(** An [nn.Module]: the two layer classes [init_weights] looks for, and
    any other module with the tensors it owns (parameters and buffers) and
    its children, each under the name it is registered with.  [X] is what
    a tensor slot holds. *)
Inductive module (X : Type) :=
| Linear (weight : X) (bias : option X)
| Conv1d (weight : X) (bias : option X)
| Other (tensors : list (string * X)) (children : list (string * module X)).
Arguments Linear {X} _ _.
Arguments Conv1d {X} _ _.
Arguments Other {X} _ _.

Section Traversals.

Context {A B S : Type}.

(** A loop over a list that threads a state. *)
Definition map_state (f : A → S → B * S) : list A → S → list B * S :=
  fix go l s :=
    match l with
    | [] => ([], s)
    | x :: l' =>
        let '(y, s1) := f x s in
        let '(ys, s2) := go l' s1 in
        (y :: ys, s2)
    end.

End Traversals.

Section Modules.

Context {X : Type}.

Fixpoint mmap {Y} (f : X → Y) (m : module X) : module Y :=
  match m with
  | Linear w b => Linear (f w) (f <$> b)
  | Conv1d w b => Conv1d (f w) (f <$> b)
  | Other ts cs =>
      Other (prod_map id f <$> ts) (map (λ nc, (nc.1, mmap f nc.2)) cs)
  end.

(** [module.apply(fn)]: the children first, in the order they were
    registered, then the module itself. *)
Fixpoint apply {S} (fn : module X → S → module X * S) (m : module X) (s : S)
  : module X * S :=
  match m with
  | Other ts cs =>
      let '(cs', s') :=
        map_state (λ nc s0, let '(c', s1) := apply fn nc.2 s0 in
                            ((nc.1, c'), s1)) cs s in
      fn (Other ts cs') s'
  | _ => fn m s
  end.

(** The tensors of a module under their keys: the module's own first,
    then those of its children, a child's name and a dot before the keys
    of the child. *)
Fixpoint named_tensors (prefix : string) (m : module X)
  : list (string * X) :=
  match m with
  | Linear w b | Conv1d w b =>
      ((prefix ++ "weight")%string, w)
        :: option_list ((λ x, ((prefix ++ "bias")%string, x)) <$> b)
  | Other ts cs =>
      ((λ nx, ((prefix ++ nx.1)%string, nx.2)) <$> ts)
        ++ concat (map (λ nc, named_tensors (prefix ++ nc.1 ++ ".") nc.2) cs)
  end.

(** [module.state_dict()]: the dict of the tensors by key. *)
Definition state_dict (m : module X) : gmap string X :=
  foldl (λ d kx, <[kx.1 := kx.2]> d) ∅ (named_tensors "" m).

(** A module with [f key] applied to the tensor under each key. *)
Fixpoint map_named (f : string → X → X) (prefix : string) (m : module X)
  : module X :=
  match m with
  | Linear w b =>
      Linear (f (prefix ++ "weight")%string w)
             (f (prefix ++ "bias")%string <$> b)
  | Conv1d w b =>
      Conv1d (f (prefix ++ "weight")%string w)
             (f (prefix ++ "bias")%string <$> b)
  | Other ts cs =>
      Other ((λ nx, (nx.1, f (prefix ++ nx.1)%string nx.2)) <$> ts)
            (map (λ nc, (nc.1, map_named f (prefix ++ nc.1 ++ ".") nc.2)) cs)
  end.

End Modules.

(** What the code calls but does not define. [R] is the state of the
    random number generator.  The initializers fill a tensor in place, so
    they keep its shape. *)
Class Init (T R : Type) := {
  normal_ : T → R → T * R;
    (** [nn.init.normal_(t, mean=0.0, std=0.02)] *)
  constant_zero : T → T;
    (** [nn.init.constant_(t, 0)] *)
  shape : T → list nat;
    (** [t.shape] *)
  normal_shape : ∀ t r, shape (normal_ t r).1 = shape t;
  constant_zero_shape : ∀ t, shape (constant_zero t) = shape t
}.

Inductive exn :=
| RuntimeError
    (** [load_state_dict]: a key of the module is missing from the dict, the
        dict has a key the module has not, or a tensor of the dict has
        another shape than the tensor it is for *)
| CheckpointError
    (** whatever [load_checkpoint] raises *).

Section Loading.

Context {T R O Sch : Type} {init : Init T R}.

Definition init_tensor (t : tensor T) (r : R) : tensor T * R :=
  let '(x, r') := normal_ (payload t) r in (Tensor x (dev t), r').

Definition zero_tensor (t : tensor T) : tensor T :=
  Tensor (constant_zero (payload t)) (dev t).

Definition init_weights (m : module (tensor T)) (r : R)
  : module (tensor T) * R :=
  match m with
  | Linear weight bias =>
      let '(weight', r') := init_tensor weight r in
      (Linear weight' (zero_tensor <$> bias), r')
  | Conv1d weight bias =>
      let '(weight', r') := init_tensor weight r in
      (Conv1d weight' (zero_tensor <$> bias), r')
  | Other _ _ => (m, r)
  end.

Definition shape_of (t : tensor T) : list nat := shape (payload t).

(** Two modules of one architecture: the same tree of layers under the
    same names, with tensors of the same shapes, whatever the tensors
    hold and wherever they are. *)
Definition same_arch (m m' : module (tensor T)) : Prop :=
  mmap shape_of m = mmap shape_of m'.

(** [model.load_state_dict(sd)] with the default [strict=True]: unless the
    dict has the keys of the module, and under each a tensor of the shape
    of the module's, it raises; otherwise every tensor of the module takes
    the values of the tensor under its key, where it is. *)
Definition load_state_dict (m : module (tensor T))
    (sd : gmap string (tensor T)) : exn + module (tensor T) :=
  if decide (shape_of <$> sd = shape_of <$> state_dict m)
  then inr (map_named (λ key t, default t (copy_ t <$> sd !! key)) "" m)
  else inl RuntimeError.

(** [utils.checkpoint_utils.load_checkpoint], which is not part of the
    sources at hand: it is a parameter of what follows. *)
Context (load_checkpoint :
  string → module (tensor T) → O → Sch → device →
  exn + (Z * Z * module (tensor T) * O * Sch)).

(** [if model is not None: model.load_state_dict(model_0.state_dict())] *)
Definition sync_secondary (model_0 : module (tensor T))
    (model : option (module (tensor T)))
  : exn + option (module (tensor T)) :=
  match model with
  | Some m =>
      match load_state_dict m (state_dict model_0) with
      | inr m' => inr (Some m')
      | inl e => inl e
      end
  | None => inr None
  end.

(** The loop over [(model_1, model_2, model_3)]. *)
Definition sync_secondaries (model_0 : module (tensor T))
    (model_1 model_2 model_3 : option (module (tensor T)))
  : exn + (option (module (tensor T)) * option (module (tensor T))
           * option (module (tensor T))) :=
  match sync_secondary model_0 model_1 with
  | inl e => inl e
  | inr m1 =>
      match sync_secondary model_0 model_2 with
      | inl e => inl e
      | inr m2 =>
          match sync_secondary model_0 model_3 with
          | inl e => inl e
          | inr m3 => inr (m1, m2, m3)
          end
      end
  end.

Record loaded := Loaded {
  models : module (tensor T) * option (module (tensor T))
           * option (module (tensor T)) * option (module (tensor T));
  optimizer : O;
  scheduler : Sch;
  start_epoch : Z;
  batch_step : Z
}.

(** [config.get('mode') == 'resume' and os.path.exists(checkpoint_path)],
    on a configuration of strings and the set [fs] of existing paths. *)
Definition resumes (config : gmap string string) (fs : gset string) : bool :=
  let checkpoint_path := default "" (config !! "checkpoint_path") in
  bool_decide (config !! "mode" = Some "resume")
  && bool_decide (checkpoint_path ∈ fs).

Definition load_or_initialize_models
    (config : gmap string string)
    (models : module (tensor T) * option (module (tensor T))
              * option (module (tensor T)) * option (module (tensor T)))
    (optimizer : O) (scheduler : Sch) (device : device)
    (fs : gset string) (r : R) : (exn + loaded) * R :=
  let '(model_0, model_1, model_2, model_3) := models in
  let start_epoch := 0%Z in
  let batch_step := 0%Z in
  let checkpoint_path := default "" (config !! "checkpoint_path") in
  if resumes config fs
  then
    match load_checkpoint checkpoint_path model_0 optimizer scheduler device
    with
    | inl e => (inl e, r)
    | inr (start_epoch, batch_step, model_0, optimizer, scheduler) =>
        let start_epoch := (start_epoch + 1)%Z in
        match sync_secondaries model_0 model_1 model_2 model_3 with
        | inl e => (inl e, r)
        | inr (model_1, model_2, model_3) =>
            (inr (Loaded (model_0, model_1, model_2, model_3)
                         optimizer scheduler start_epoch batch_step), r)
        end
    end
  else
    let '(model_0, r') := apply init_weights model_0 r in
    match sync_secondaries model_0 model_1 model_2 model_3 with
    | inl e => (inl e, r')
    | inr (model_1, model_2, model_3) =>
        (inr (Loaded (model_0, model_1, model_2, model_3)
                     optimizer scheduler start_epoch batch_step), r')
    end.

(** *** The outcome as the specification words it *)


(** The weights of the [Linear] and [Conv1d] layers of a module, in the
    order [apply] visits the layers. *)
Fixpoint layer_weights {X} (m : module X) : list X :=
  match m with
  | Linear weight _ | Conv1d weight _ => [weight]
  | Other _ cs => concat (map (λ nc, layer_weights nc.2) cs)
  end.

(** The values drawn for a list of weights one after the other, from the
    generator in state [r], and the state the generator is left in. *)
Fixpoint draws (ws : list (tensor T)) (r : R) : list T * R :=
  match ws with
  | [] => ([], r)
  | w :: ws' =>
      let '(x, r1) := normal_ (payload w) r in
      let '(xs, r2) := draws ws' r1 in
      (x :: xs, r2)
  end.



End Loading.

(** *** An initializer and a checkpoint loader over the integers, to run
    the definitions *)

(** The generator counts its draws; every tensor is a scalar. *)
Definition counting_init : Init Z nat := {|
  normal_ := λ _ r, (Z.of_nat r, S r);
  constant_zero := λ _, 0%Z;
  shape := λ _, [];
  normal_shape := λ _ _, eq_refl;
  constant_zero_shape := λ _, eq_refl
|}.

Definition small_model (d : device) (x : Z) : module (tensor Z) :=
  Other [("scale", Tensor x d)]
        [("fc", Linear (Tensor (x + 1)%Z d) (Some (Tensor (x + 2)%Z d)));
         ("conv", Conv1d (Tensor (x + 3)%Z d) None)].

(** A loader that finds epoch 4 and batch step 17 in every file and sets
    every tensor of the model to 9. *)
Definition constant_checkpoint (path : string) (m : module (tensor Z))
    (o s : unit) (d : device)
  : exn + (Z * Z * module (tensor Z) * unit * unit) :=
  inr (4%Z, 17%Z, mmap (λ t, Tensor 9%Z (dev t)) m, o, s).

Definition resume_config : gmap string string :=
  {[ "mode" := "resume"; "checkpoint_path" := "model.pth" ]}.

End Checkpoint.

(** ** Further definitions for [save_csv.py] *)
Module SaveCsvFrames.

Import SaveCsv.

(** [a[:k]]: the first [k] rows. *)
Definition take_rows {E} (k : nat) (a : ndarray E) : ndarray E :=
  NdArray (k `min` shape0 a) (shape1 a) (take k (rows a)).

(** Fields as a timecode of at most 99 hours shows them in full. *)
Definition in_range (t : timecode_fields) : Prop :=
  (0 ≤ tc_hours t < 100 ∧ 0 ≤ tc_minutes t < 100 ∧ 0 ≤ tc_seconds t < 100 ∧
   0 ≤ tc_frame t < 100 ∧ 0 ≤ tc_millis t < 1000)%Z.

(** The digits of a number below 100, and of a number below 1000. *)
Definition two_digits (z : Z) : string :=
  String (Fmt.digit (Z.to_N (z / 10)))
         (String (Fmt.digit (Z.to_N (z mod 10))) EmptyString).

Definition three_digits (z : Z) : string :=
  String (Fmt.digit (Z.to_N (z / 100)))
         (String (Fmt.digit (Z.to_N (z / 10 mod 10)))
                 (String (Fmt.digit (Z.to_N (z mod 10))) EmptyString)).

(** The time a timecode shows, without its frame field, in milliseconds
    from the start. *)
Definition instant (t : timecode_fields) : Z :=
  (((tc_hours t * 60 + tc_minutes t) * 60 + tc_seconds t) * 1000
   + tc_millis t)%Z.

(** A frame whose timecode fields are in range, whose displayed time is
    the exact time of the frame or one millisecond before, and earlier
    than the displayed time of the next frame. *)
Definition well_stamped (i : nat) : bool :=
  let t := timecode_fields_of i in
  let exact := (1000 * Z.of_nat i / 60)%Z in
  bool_decide (in_range t)
  && bool_decide (exact - 1 ≤ instant t ≤ exact)%Z
  && bool_decide (instant t < instant (timecode_fields_of (S i)))%Z.

End SaveCsvFrames.

(** ** Reading a decimal numeral back *)
Module Decimal.

Definition digit_value (c : ascii) : N := (N_of_ascii c - 48)%N.

Fixpoint read_from (a : N) (s : string) : N :=
  match s with
  | EmptyString => a
  | String c s' => read_from (a * 10 + digit_value c)%N s'
  end.

(** [int(s)] on a string of digits. *)
Definition read_N (s : string) : N := read_from 0 s.

End Decimal.

(** ** [utils/training_helpers.py]: the plots of an epoch *)
Module Plots.

Local Open Scope string_scope.

Fixpoint last_char (s : string) : option ascii :=
  match s with
  | EmptyString => None
  | String c EmptyString => Some c
  | String _ s' => last_char s'
  end.

(** [os.path.join(a, b)] of [posixpath]. *)
Definition join (a b : string) : string :=
  match b with
  | String "/" _ => b
  | _ =>
      match last_char a with
      | None | Some "/"%char => a ++ b
      | Some _ => a ++ "/" ++ b
      end
  end.

(** [f"{n}"] for a non-negative int. *)
Definition str (n : nat) : string := Fmt.str_N (N.of_nat n).

Definition gradient_norm_plot_path (save_dir : string) (epoch : nat)
  : string :=
  join save_dir ("gradient_norms_epoch_" ++ str (epoch + 1) ++ ".png").

Definition loss_plot_path (save_dir : string) (epoch : nat) : string :=
  join save_dir ("loss_epoch_" ++ str (epoch + 1) ++ ".png").

End Plots.

(** ** [utils/training_helpers.py]: devices and replicas *)
Module Prepare.

Inductive torch_device :=
| cuda (i : nat)
    (** [torch.device(f"cuda:{i}")] *)
| cpu.

(** The entries of the configuration dict: the two the function reads, an
    int and a bool, [None] for an absent key; and [strings], the
    string-valued entries, [mode] and [checkpoint_path] among them. *)
Record config := Config {
  num_gpus : option Z;
  use_multi_gpu : option bool;
  strings : gmap string string
}.

(** [while len(devices) < n: devices.append(None)] *)
Definition pad_to {A} (n : nat) (l : list (option A)) : list (option A) :=
  l ++ replicate (n - length l) None.

Section Building.

(** A model, and [utils.model_utils.build_model], which is not part of the
    sources at hand. *)
Context {Mdl : Type} (build_model : config → torch_device → Mdl).

Record prepared := Prepared {
  devices : list (option torch_device);
  multi_gpu : bool;
  models : Mdl * option Mdl * option Mdl * option Mdl
}.

(** [device_count] is what [torch.cuda.device_count()] answers. *)
Definition prepare_devices_and_models (config : config) (device_count : nat)
  : prepared :=
  let desired_gpus := default 1%Z (num_gpus config) in
  let use_multi_gpu :=
    default false (use_multi_gpu config) && bool_decide (1 < device_count) in
  let devices :=
    pad_to 4 ((λ i, Some (cuda i)) <$> seq 0 (device_count `min` 4)) in
  let secondary (k : nat) : option Mdl :=
    if use_multi_gpu && bool_decide (Z.of_nat (k + 1) ≤ desired_gpus)%Z
    then build_model config <$> mjoin (devices !! k)
    else None in
  let model_0 := build_model config (default cpu (mjoin (devices !! 0))) in
  let model_1 := secondary 1 in
  let model_2 := secondary 2 in
  let model_3 := secondary 3 in
  Prepared devices use_multi_gpu (model_0, model_1, model_2, model_3).

(** The replicas of a tuple of models, the primary first. *)
Definition replicas (ms : Mdl * option Mdl * option Mdl * option Mdl)
  : list Mdl :=
  let '(model_0, model_1, model_2, model_3) := ms in
  model_0 :: omap id [model_1; model_2; model_3].

Definition built (p : prepared) : list Mdl := replicas (models p).

(** How many replicas a configuration asks for on [device_count]
    devices. *)
Definition replica_count (config : config) (device_count : nat) : nat :=
  if default false (use_multi_gpu config) && bool_decide (1 < device_count)
  then 1 `max` (Z.to_nat (default 1%Z (num_gpus config))
                `min` (device_count `min` 4))
  else 1.

End Building.

Arguments prepared : clear implicits.

End Prepare.

(** ** [utils/training_helpers.py]: the state of initialized and loaded
    models *)
Module ModelState.

Import Torch Checkpoint.

Section Loading.

Context {T R : Type} {init : Init T R}.


End Loading.


End ModelState.

(** ** [utils/training_helpers.py]: the single-GPU step, and the phases
    of the multi-GPU step *)
Module Steps.

Import Torch.

Section Helpers.

Context {T F Loss L : Type} {torch : Library T F Loss L}.

(** The optimizer and the scaler the Python function is handed are the
    library state [lib] of the world, as for the multi-GPU step. *)
Definition _backward_and_step_single_gpu
    (loss : Loss) (model : list loc) (clip : F) (use_amp : bool)
  : M T Loss L F :=
  if use_amp
  then
    bind (call_backward true loss) (λ _,
    bind call_unscale_ (λ _,
    bind (calculate_gradient_norm model) (λ total_norm,
    bind (call_clip_grad_norm_ model clip) (λ _,
    bind call_scaler_step (λ _,
    bind call_scaler_update (λ _,
    ret total_norm))))))
  else
    bind (call_backward false loss) (λ _,
    bind (calculate_gradient_norm model) (λ total_norm,
    bind (call_clip_grad_norm_ model clip) (λ _,
    bind call_optimizer_step (λ _,
    ret total_norm)))).

(** Where a parameter and its gradient live. *)
Definition placement (x : parameter T) : device * option device :=
  (dev (data x), dev <$> grad x).

(** The world the averaging loop of the multi-GPU step starts from: after
    the backward passes and, under AMP, the unscaling and the division of
    the secondaries' gradients. *)
Definition before_averaging (use_amp : bool) (losses : list Loss)
    (models : list (list loc)) (w : world T Loss L) : world T Loss L :=
  let w1 := backward_pass use_amp losses w in
  if use_amp
  then foldl (λ w' p, div_grad_step (get_scale (lib w1)) p w') w1
             (concat (drop 1 models))
  else w1.

End Helpers.

End Steps.

(** ** [utils/training_helpers.py]: the losses of the replicas *)
Module Losses.

Import Torch.

Section Computing.

(** A replica, a batch of inputs, a batch of targets, the output of a
    forward pass, a loss; and [St], what a forward pass and a criterion may
    change besides: the buffers of the modules, the random number
    generator. *)
Context {Mdl In Tgt Out Loss St : Type}.

(** [model(x)] and [criterion(output, t, current_step=..., total_steps=...)],
    which the code is handed; the flag tells whether autocast is on. *)
Context (forward : bool → Mdl → In → St → Out * St).
Context (criterion : bool → Out → Tgt → Z → Z → St → Loss * St).

(** One round of the loop: a forward pass and its loss. *)
Definition loss_of (autocast : bool) (current_step total_steps : Z)
    (model : Mdl) (x : In) (t : Tgt) (s : St) : Loss * St :=
  let '(output, s1) := forward autocast model x s in
  criterion autocast output t current_step total_steps s1.

(** [for i, model in enumerate(models): ...], from index [i] on. *)
Fixpoint losses_from (autocast : bool) (i : nat) (models : list Mdl)
    (inputs : list In) (targets : list Tgt) (current_step total_steps : Z)
    (losses : list Loss) (s : St) : (exn + list Loss) * St :=
  match models with
  | [] => (inr losses, s)
  | model :: models' =>
      match inputs !! i with
      | None => (inl IndexError, s)
      | Some x =>
          let '(output, s1) := forward autocast model x s in
          match targets !! i with
          | None => (inl IndexError, s1)
          | Some t =>
              let '(loss, s2) :=
                criterion autocast output t current_step total_steps s1 in
              losses_from autocast (S i) models' inputs targets
                current_step total_steps (losses ++ [loss]) s2
          end
      end
  end.

Definition _compute_losses_multi_gpu (models : list Mdl) (inputs : list In)
    (targets : list Tgt) (current_step total_steps : Z) (use_amp : bool)
    (s : St) : (exn + list Loss) * St :=
  let losses := [] in
  if use_amp
  then losses_from true 0 models inputs targets current_step total_steps
         losses s
  else losses_from false 0 models inputs targets current_step total_steps
         losses s.

(** The losses of the replicas paired with their inputs and targets, one
    after the other. *)
Definition paired_losses (autocast : bool) (current_step total_steps : Z)
    (rounds : list (Mdl * (In * Tgt))) (s : St) : list Loss * St :=
  foldl (λ acc r,
           let '(loss, s') :=
             loss_of autocast current_step total_steps r.1 r.2.1 r.2.2 acc.2
           in (acc.1 ++ [loss], s'))
        ([], s) rounds.

End Computing.

(** Replicas that add their number to the input, and a criterion that
    takes the difference to the target; the state counts the calls. *)
Definition adding_forward (autocast : bool) (model : Z) (x : Z) (s : nat)
  : Z * nat := ((model + x)%Z, S s).

Definition difference_criterion (autocast : bool) (output t : Z)
    (current_step total_steps : Z) (s : nat) : Z * nat :=
  ((output - t)%Z, S s).

End Losses.

(** * Properties *)

Module SaveCsvSpec.

Import SaveCsv.
Local Open Scope string_scope.

Section Saving.

Context {A : Type}.
Implicit Types (generated : ndarray A) (fs : gmap string (csv A)).

Lemma stacked_lookup k (rs : list (list A)) n i r :
  length rs = n → rs !! i = Some r →
  stacked k rs n !! i
  = Some (Text (timecode i) :: Count k :: (Value <$> r)).
Proof.
  intros Hlen Hr. unfold stacked, hstack, column, full_column; simpl.
  assert (Hi : i < n) by (rewrite <- Hlen; eapply lookup_lt_Some; eauto).
  rewrite lookup_zip_with.
  rewrite !list_lookup_fmap. unfold timecodes.
  rewrite list_lookup_fmap, lookup_seq_lt by done. simpl.
  rewrite lookup_zip_with, lookup_replicate_2 by done. simpl.
  rewrite list_lookup_fmap, Hr. done.
Qed.

Lemma stacked_length k (rs : list (list A)) n :
  length rs = n → length (stacked k rs n) = n.
Proof.
  intros Hlen. unfold stacked, hstack, column, full_column; simpl.
  rewrite length_zip_with, !length_fmap, length_zip_with.
  unfold timecodes.
  rewrite length_fmap, length_seq, length_replicate, length_fmap. lia.
Qed.

Lemma stacked_widths k (rs : list (list A)) n :
  length rs = n → Forall (λ r, length r = k) rs →
  Forall (λ rec, length rec = 2 + k) (stacked k rs n).
Proof.
  intros Hlen Hw. apply Forall_lookup_2. intros i rec Hrec.
  assert (Hi : i < length rs).
  { rewrite Hlen, <- (stacked_length k rs n Hlen).
    eapply lookup_lt_Some; eauto. }
  destruct (lookup_lt_is_Some_2 rs i Hi) as [r Hr].
  rewrite (stacked_lookup k rs n i r Hlen Hr) in Hrec.
  injection Hrec as <-. simpl. rewrite length_fmap.
  by rewrite (Forall_lookup_1 _ _ _ _ Hw Hr).
Qed.

(** Every accepted pairing of width and flag reaches [to_csv]. *)
Lemma save_accepted generated output_path inc fs :
  shape1 generated = 68 ∨ (shape1 generated = 61 ∧ inc = false) →
  save_generated_data_as_csv generated output_path inc fs
  = (inr (), <[output_path := written generated inc]> fs).
Proof.
  intros Hshape. unfold save_generated_data_as_csv, written.
  destruct generated as [n c rs]; simpl in *.
  destruct Hshape as [-> | [-> ->]]; [destruct inc|]; reflexivity.
Qed.

Lemma written_header generated inc : header (written generated inc) = schema inc.
Proof. by destruct inc. Qed.

Lemma written_length generated inc :
  ndarray_wf generated →
  length (records (written generated inc)) = shape0 generated.
Proof.
  intros [Hlen _]. destruct inc; simpl; apply stacked_length;
    rewrite ?length_fmap; done.
Qed.

(** A call that returns normally was given an accepted pairing. *)
Lemma save_returns generated output_path inc fs :
  (save_generated_data_as_csv generated output_path inc fs).1 = inr () →
  shape1 generated = 68 ∨ (shape1 generated = 61 ∧ inc = false).
Proof.
  unfold save_generated_data_as_csv.
  destruct generated as [n c rs]; simpl.
  case_bool_decide as Hc; simpl; [|done].
  rewrite !elem_of_cons, elem_of_nil in Hc.
  destruct Hc as [-> | [-> | []]]; [by left|].
  destruct inc; [|by right]. simpl. discriminate.
Qed.

Lemma save_returns_written generated output_path inc fs f :
  (save_generated_data_as_csv generated output_path inc fs).1 = inr () →
  (save_generated_data_as_csv generated output_path inc fs).2
    !! output_path = Some f →
  f = written generated inc.
Proof.
  intros Hret Hf. apply save_returns in Hret.
  rewrite (save_accepted _ _ _ _ Hret) in Hf. simpl in Hf.
  rewrite lookup_insert_eq in Hf. by injection Hf.
Qed.

(** C2 (as amended). For every well-formed input matrix with exactly 68
    columns, under either setting of [include_emotion_dimensions], and
    for every one with exactly 61 columns when the flag is false, the
    call writes a CSV whose record count is the input's row count and
    whose header and record widths are those of the requested schema. *)
Theorem save_writes_schema generated output_path inc fs :
  ndarray_wf generated →
  shape1 generated = 68 ∨ (shape1 generated = 61 ∧ inc = false) →
  writes_schema generated output_path inc fs.
Proof.
  intros Hwf Hshape. exists (written generated inc).
  split; [by apply save_accepted|].
  split; [by apply written_header|].
  split; [by apply written_length|].
  destruct Hwf as [Hlen Hw].
  destruct inc; unfold written; cbn [records header].
  - destruct Hshape as [Hc | [_ ?]]; [|done].
    rewrite Hc in *. by apply (stacked_widths 68).
  - assert (Hk : 61 `min` shape1 generated = 61) by lia. rewrite Hk.
    apply (stacked_widths 61); [by rewrite length_fmap|].
    apply Forall_fmap. eapply Forall_impl; [exact Hw|].
    intros r Hr. cbn in *. rewrite length_take. lia.
Qed.

(** C3 (as amended). The header a returning call writes is [Timecode],
    [BlendshapeCount], the 61 blendshape channel names and, when
    [include_emotion_dimensions] is true, the 7 emotion names, in that
    order: 63 named columns without the emotions, 70 with them. *)
Theorem header_columns generated output_path inc fs f :
  (save_generated_data_as_csv generated output_path inc fs).1 = inr () →
  (save_generated_data_as_csv generated output_path inc fs).2
    !! output_path = Some f →
  header f = ("Timecode" :: "BlendshapeCount" :: blendshape_names ++
              (if inc then emotion_columns else []))%list ∧
  length blendshape_names = 61 ∧ length emotion_columns = 7 ∧
  length (header f) = if inc then 70 else 63.
Proof.
  intros Hret Hf.
  rewrite (save_returns_written _ _ _ _ _ Hret Hf).
  by destruct inc.
Qed.

(** C5. For every input matrix whose column count is neither 61 nor
    68, the call raises the column-count [ValueError] and leaves the
    file system as it found it. *)
Theorem save_rejects_other_widths generated output_path inc fs :
  shape1 generated ≠ 61 → shape1 generated ≠ 68 →
  save_generated_data_as_csv generated output_path inc fs
  = (inl (ValueError_columns (shape1 generated)), fs).
Proof.
  intros H61 H68. unfold save_generated_data_as_csv.
  rewrite bool_decide_eq_false_2; [done|].
  rewrite !elem_of_cons, elem_of_nil. tauto.
Qed.

(** C6. For every well-formed 68-column input, a call with
    [include_emotion_dimensions] false writes the 61-channel schema:
    each record carries, after its timecode and count, the first 61
    values of its input row unchanged, and the row's last 7 values
    (the emotion dimensions) are dropped. *)
Theorem save_drops_emotions generated output_path fs :
  ndarray_wf generated → shape1 generated = 68 →
  ∃ f, save_generated_data_as_csv generated output_path false fs
       = (inr (), <[output_path := f]> fs) ∧
       header f = schema false ∧
       length (header f) = 2 + 61 ∧
       length (records f) = shape0 generated ∧
       ∀ i r, rows generated !! i = Some r →
         records f !! i
         = Some (Text (timecode i) :: Count 61 :: (Value <$> take 61 r)) ∧
         r = (take 61 r ++ drop 61 r)%list ∧
         length (take 61 r) = 61 ∧ length (drop 61 r) = 7.
Proof.
  intros [Hlen Hw] Hc. exists (written generated false).
  split; [apply save_accepted; by left|].
  split; [done|]. split; [done|].
  split; [by apply written_length|].
  intros i r Hr.
  assert (Hrl : length r = 68).
  { rewrite <- Hc. exact (Forall_lookup_1 _ _ _ _ Hw Hr). }
  split.
  - unfold written; cbn [records]. rewrite Hc.
    apply (stacked_lookup (61 `min` 68));
      [by rewrite length_fmap|].
    by rewrite list_lookup_fmap, Hr.
  - rewrite take_drop, length_take, length_drop.
    split; [done|]. lia.
Qed.

(** C7. In every file a returning call writes for a well-formed input,
    every record's [BlendshapeCount] field is the same constant, the
    number of channel values that follow it in the record: 61 under the
    61-channel schema, 68 under the 68-channel schema. *)
Theorem blendshape_count_constant generated output_path inc fs f rec :
  ndarray_wf generated →
  (save_generated_data_as_csv generated output_path inc fs).1 = inr () →
  (save_generated_data_as_csv generated output_path inc fs).2
    !! output_path = Some f →
  rec ∈ records f →
  rec !! 1 = Some (Count (if inc then 68 else 61)) ∧
  length (drop 2 rec) = (if inc then 68 else 61) ∧
  length (header f) = 2 + (if inc then 68 else 61).
Proof.
  intros [Hlen Hw] Hret Hf Hrec.
  rewrite (save_returns_written _ _ _ _ _ Hret Hf) in *.
  apply save_returns in Hret.
  apply list_elem_of_lookup in Hrec as [i Hi].
  destruct inc; unfold written in *; cbn [records header] in *.
  - destruct Hret as [Hc | [_ ?]]; [|done]. rewrite Hc in *.
    assert (Hlt : i < length (rows generated)).
    { rewrite Hlen, <- (stacked_length 68 _ _ Hlen).
      eapply lookup_lt_Some; eauto. }
    destruct (lookup_lt_is_Some_2 _ _ Hlt) as [r Hr].
    rewrite (stacked_lookup 68 _ _ _ _ Hlen Hr) in Hi.
    simplify_eq. split_and!; [reflexivity| |reflexivity].
    change (length (Value <$> r) = 68). rewrite length_fmap.
    exact (Forall_lookup_1 _ _ _ _ Hw Hr).
  - assert (Hk : 61 `min` shape1 generated = 61) by lia.
    rewrite Hk in Hi.
    assert (Hlen' : length (take 61 <$> rows generated) = shape0 generated)
      by (by rewrite length_fmap).
    assert (Hlt : i < length (take 61 <$> rows generated)).
    { rewrite Hlen', <- (stacked_length 61 _ _ Hlen').
      eapply lookup_lt_Some; eauto. }
    destruct (lookup_lt_is_Some_2 _ _ Hlt) as [r Hr].
    rewrite (stacked_lookup 61 _ _ _ _ Hlen' Hr) in Hi.
    rewrite list_lookup_fmap in Hr.
    destruct (rows generated !! i) as [r0|] eqn:Hr0; [|done].
    simplify_eq/=. split_and!; [reflexivity| |reflexivity].
    change (length (Value <$> take 61 r0) = 61).
    rewrite length_fmap, length_take.
    rewrite (Forall_lookup_1 _ _ _ _ Hw Hr0). lia.
Qed.

(** C10. For every input matrix with exactly 61 columns, a call with
    [include_emotion_dimensions] true raises from the [DataFrame]
    construction, which is handed 70 column names for 63 data columns,
    and leaves the file system as it found it. *)
Theorem save_61_with_emotions_raises generated output_path fs :
  shape1 generated = 61 →
  save_generated_data_as_csv generated output_path true fs
  = (inl (ValueError_DataFrame (shape0 generated, 63)
                               (shape0 generated, 70)), fs) ∧
  length (base_columns ++ emotion_columns)%list = 70 ∧
  2 + shape1 generated = 63.
Proof.
  intros Hc. unfold save_generated_data_as_csv.
  destruct generated as [n c rs]; cbn [shape1 shape0] in *. subst c.
  split_and!; [|reflexivity..].
  rewrite bool_decide_eq_true_2 by (rewrite !elem_of_cons; tauto).
  cbn [negb]. unfold DataFrame_new, hstack, column, full_column.
  cbn [shape0 shape1]. rewrite decide_False by (cbn; lia).
  unfold timecodes. by rewrite !length_fmap, length_seq.
Qed.

End Saving.

(** C2, as stated, fails on a one-row 61-column matrix with the emotion
    flag set: nothing is written. *)
Lemma save_61_with_emotions_writes_nothing :
  ¬ writes_schema (sample 1 61) "out.csv" true ∅.
Proof.
  intros [f [Hsave _]]. apply (f_equal fst) in Hsave.
  vm_compute in Hsave. discriminate.
Qed.

(** C3, as stated, fails on a one-row 61-column matrix: the header that
    is written has 63 columns, neither 61 nor 68. *)
Lemma header_is_not_61_or_68_columns :
  ¬ (∀ f, (save_generated_data_as_csv (sample 1 61) "out.csv" false ∅).2
            !! "out.csv" = Some f →
          header f = schema false ∧
          (length (header f) = 61 ∨ length (header f) = 68)).
Proof.
  intros H.
  destruct (H (written (sample 1 61) false)) as [_ [Hl | Hl]].
  - rewrite (save_accepted (sample 1 61) "out.csv" false ∅);
      [|by right].
    simpl. by rewrite lookup_insert_eq.
  - simpl in Hl. discriminate.
  - simpl in Hl. discriminate.
Qed.

(** C4. Frame 5 of any export is stamped with frame field 04, the field
    of frame 4, although at 60 frames per second it is the sixth frame of
    its second: [int(milliseconds / (1000 / frame_rate))] truncates
    4.999999999999999.  The [Timecode] column of the file written for a
    six-row matrix shows it. *)
Theorem timecode_frame_5 :
  timecode 4 = "00:00:00:04.066" ∧ timecode 5 = "00:00:00:04.083" ∧
  tc_frame (timecode_fields_of 5) ≠ (5 mod 60)%Z ∧
  (λ f, head <$> records f)
    <$> (save_generated_data_as_csv (sample 6 61) "out.csv" false ∅).2
          !! "out.csv"
  = Some [ Some (Text "00:00:00:00.000"); Some (Text "00:00:00:01.016");
           Some (Text "00:00:00:02.033"); Some (Text "00:00:00:03.050");
           Some (Text "00:00:00:04.066"); Some (Text "00:00:00:04.083") ].
Proof.
  split_and!; [by vm_compute..| |by vm_compute].
  vm_compute. discriminate.
Qed.

(** The frames of the first second that carry a stale frame field. *)
Lemma stale_frames_of_first_second :
  stale_frames 60
  = [5; 10; 11; 15; 17; 19; 20; 22; 23; 27; 29; 30; 31; 34; 38; 40; 43;
     44; 46; 49; 51; 53; 54; 55; 57; 58; 59].
Proof. vm_compute. reflexivity. Qed.

(** Over the first five seconds the timecodes never step back. *)
Lemma first_frames_in_order :
  forallb (λ i, timecode_le (timecode_fields_of i) (timecode_fields_of (S i)))
          (seq 0 300) = true.
Proof. vm_compute. reflexivity. Qed.

(** The frames that start a whole second carry frame field 00 and the
    right seconds, minutes and hours: through the first minute, around the
    second minute and around the first hour. *)
Lemma whole_seconds_wrap :
  forallb (λ k, bool_decide (fields (timecode_fields_of (60 * k))
                             = fields (whole_second k)))
          (seq 0 62 ++ [119; 120; 121; 3599; 3600; 3601]) = true.
Proof. vm_compute. reflexivity. Qed.

Lemma save_writes_schema_witness :
  ndarray_wf (sample 2 68) ∧
  (shape1 (sample 2 68) = 68 ∨ (shape1 (sample 2 68) = 61 ∧ true = false)) ∧
  writes_schema (sample 2 68) "out.csv" true ∅.
Proof.
  assert (Hwf : ndarray_wf (sample 2 68))
    by (split; [reflexivity | repeat constructor]).
  assert (Hc : shape1 (sample 2 68) = 68
               ∨ (shape1 (sample 2 68) = 61 ∧ true = false))
    by (left; reflexivity).
  split; [exact Hwf|]. split; [exact Hc|].
  exact (save_writes_schema (sample 2 68) "out.csv" true ∅ Hwf Hc).
Defined.

Lemma header_columns_witness :
  (save_generated_data_as_csv (sample 2 68) "out.csv" true ∅).1 = inr () ∧
  header (written (sample 2 68) true)
  = ("Timecode" :: "BlendshapeCount" :: blendshape_names ++ emotion_columns)%list ∧
  length (header (written (sample 2 68) true)) = 70.
Proof.
  assert (Hret : (save_generated_data_as_csv (sample 2 68) "out.csv"
                    true ∅).1 = inr ()) by reflexivity.
  assert (Hf : (save_generated_data_as_csv (sample 2 68) "out.csv"
                  true ∅).2 !! "out.csv"
               = Some (written (sample 2 68) true)) by (vm_compute; reflexivity).
  destruct (header_columns (sample 2 68) "out.csv" true ∅ _ Hret Hf)
    as (Hh & _ & _ & Hl).
  split; [exact Hret|]. split; [exact Hh | exact Hl].
Defined.

Lemma save_rejects_other_widths_witness :
  shape1 (sample 2 3) ≠ 61 ∧ shape1 (sample 2 3) ≠ 68 ∧
  save_generated_data_as_csv (sample 2 3) "out.csv" false ∅
  = (inl (ValueError_columns 3), ∅).
Proof.
  assert (H61 : shape1 (sample 2 3) ≠ 61) by (cbn; lia).
  assert (H68 : shape1 (sample 2 3) ≠ 68) by (cbn; lia).
  split; [exact H61|]. split; [exact H68|].
  exact (save_rejects_other_widths (sample 2 3) "out.csv" false ∅ H61 H68).
Defined.

Lemma save_drops_emotions_witness :
  ndarray_wf (sample 2 68) ∧ shape1 (sample 2 68) = 68 ∧
  ∃ f, save_generated_data_as_csv (sample 2 68) "out.csv" false ∅
       = (inr (), <[("out.csv" : string) := f]> ∅) ∧
       records f !! 1
       = Some (Text (timecode 1) :: Count 61 :: (Value <$> seq 0 61)).
Proof.
  assert (Hwf : ndarray_wf (sample 2 68))
    by (split; [reflexivity | repeat constructor]).
  assert (Hc : shape1 (sample 2 68) = 68) by reflexivity.
  split; [exact Hwf|]. split; [exact Hc|].
  destruct (save_drops_emotions (sample 2 68) "out.csv" ∅ Hwf Hc)
    as (f & Hsave & _ & _ & _ & Hrows).
  exists f. split; [exact Hsave|].
  exact (proj1 (Hrows 1 (seq 0 68) eq_refl)).
Defined.

Lemma blendshape_count_constant_witness :
  ndarray_wf (sample 1 61) ∧
  (Text (timecode 0) :: Count 61 :: (Value <$> seq 0 61))
    ∈ records (written (sample 1 61) false) ∧
  (Text (timecode 0) :: Count 61 :: (Value <$> seq 0 61)) !! 1
  = Some (Count (A:=nat) 61).
Proof.
  assert (Hwf : ndarray_wf (sample 1 61))
    by (split; [reflexivity | repeat constructor]).
  assert (Hret : (save_generated_data_as_csv (sample 1 61) "out.csv"
                    false ∅).1 = inr ()) by reflexivity.
  assert (Hf : (save_generated_data_as_csv (sample 1 61) "out.csv"
                  false ∅).2 !! "out.csv"
               = Some (written (sample 1 61) false)) by (vm_compute; reflexivity).
  assert (Hin : (Text (timecode 0) :: Count 61 :: (Value <$> seq 0 61))
                  ∈ records (written (sample 1 61) false))
    by (apply list_elem_of_here).
  split; [exact Hwf|]. split; [exact Hin|].
  exact (proj1 (blendshape_count_constant (sample 1 61) "out.csv" false ∅
                  _ _ Hwf Hret Hf Hin)).
Defined.

Lemma save_61_with_emotions_raises_witness :
  shape1 (sample 3 61) = 61 ∧
  save_generated_data_as_csv (sample 3 61) "out.csv" true ∅
  = (inl (ValueError_DataFrame (3, 63) (3, 70)), ∅).
Proof.
  split; [reflexivity|].
  exact (proj1 (save_61_with_emotions_raises (sample 3 61) "out.csv" ∅
                  eq_refl)).
Defined.

End SaveCsvSpec.

Module TorchSpec.

Import Torch.

Section Replicas.

Context {T F Loss L : Type} {torch : Library T F Loss L}.

Implicit Types (w : world T Loss L) (h : gmap loc (parameter T)).
Implicit Types (p q : loc) (ps model m : list loc).
Implicit Types (models secondaries : list (list loc)).

(** *** Loops whose body cannot raise *)

Lemma for__update {A} (f : A → world T Loss L → world T Loss L)
    (body : A → M T Loss L unit) (l : list A) w :
  (∀ x, x ∈ l → ∀ w', body x w' = (inr (), f x w')) →
  for_ l body w = (inr (), foldl (λ w' x, f x w') w l).
Proof.
  revert w. induction l as [|x l IH]; intros w Hbody; [done|].
  cbn [for_ foldl]. unfold bind at 1.
  rewrite Hbody by apply list_elem_of_here.
  apply IH. intros y Hy. apply Hbody. by apply list_elem_of_further.
Qed.

Lemma foldl_concat {A B} (f : B → A → B) (b : B) (ls : list (list A)) :
  foldl (λ b' l, foldl f b' l) b ls = foldl f b (concat ls).
Proof.
  revert b. induction ls as [|l ls IH]; intros b; [done|].
  cbn [concat foldl]. by rewrite foldl_app, IH.
Qed.

(** A loop over replicas of a loop over their parameters visits the
    parameters in the order of the concatenation. *)
Lemma for__nested {A} (f : A → world T Loss L → world T Loss L)
    (ls : list (list A)) w :
  for_ ls (λ l, for_ l (λ x, update (f x))) w
  = (inr (), foldl (λ w' x, f x w') w (concat ls)).
Proof.
  rewrite (for__update (λ l w', foldl (λ w'' x, f x w'') w' l)).
  - by rewrite foldl_concat.
  - intros l _ w'. by apply for__update.
Qed.

(** *** Writes through [alter] *)

Lemma foldl_alter_lookup (f : parameter T → parameter T) ps h p :
  NoDup ps →
  foldl (λ h' q, alter f q h') h ps !! p
  = if decide (p ∈ ps) then f <$> h !! p else h !! p.
Proof.
  revert h. induction ps as [|q ps IH]; intros h Hnd.
  { cbn. by rewrite decide_False by apply not_elem_of_nil. }
  apply NoDup_cons in Hnd as [Hq Hnd]. cbn [foldl]. rewrite IH by done.
  destruct (decide (p = q)) as [->|Hne].
  - rewrite decide_False by done.
    rewrite decide_True by apply list_elem_of_here.
    by rewrite lookup_alter_eq.
  - rewrite lookup_alter_ne by done.
    destruct (decide (p ∈ ps)) as [Hin|Hin].
    + by rewrite decide_True by by apply list_elem_of_further.
    + rewrite decide_False; [done|].
      rewrite elem_of_cons. tauto.
Qed.

Lemma grad_of_alter (f : parameter T → parameter T) q h p :
  grad_of (alter f q h) p
  = if decide (p = q) then (h !! p ≫= λ x, grad (f x)) else grad_of h p.
Proof.
  unfold grad_of. destruct (decide (p = q)) as [->|Hne].
  - rewrite lookup_alter_eq. by destruct (h !! q).
  - by rewrite lookup_alter_ne.
Qed.

(** Rescaling or zeroing a gradient does not create or remove one. *)
Lemma grad_of_alter_is_Some (f : parameter T → parameter T) q h p :
  (∀ x, is_Some (grad (f x)) ↔ is_Some (grad x)) →
  is_Some (grad_of (alter f q h) p) ↔ is_Some (grad_of h p).
Proof.
  intros Hf. rewrite grad_of_alter. case_decide as Hpq; [|done].
  subst q. unfold grad_of. destruct (h !! p) as [x|]; [apply Hf|done].
Qed.

Lemma alter_without_grad (f : parameter T → parameter T) q h :
  (∀ x, grad x = None → f x = x) →
  grad_of h q = None → alter f q h = h.
Proof.
  intros Hf Hq. apply alter_id. intros x Hx. apply Hf.
  unfold grad_of in Hq. by rewrite Hx in Hq.
Qed.

Lemma div_param_is_Some (s : F) (x : parameter T) :
  is_Some (grad (div_param s x)) ↔ is_Some (grad x).
Proof. destruct x as [d [g|]]; cbn; by rewrite ?is_Some_alt. Qed.

Lemma div_param_without_grad (s : F) (x : parameter T) :
  grad x = None → div_param s x = x.
Proof. destruct x as [d g]; cbn. by intros ->. Qed.

Lemma zero_param_is_Some (x : parameter T) :
  is_Some (grad (zero_param x)) ↔ is_Some (grad x).
Proof. destruct x as [d [g|]]; cbn; by rewrite ?is_Some_alt. Qed.

Lemma zero_param_without_grad (x : parameter T) :
  grad x = None → zero_param x = x.
Proof. destruct x as [d g]; cbn. by intros ->. Qed.

(** A loop of guarded in-place updates of gradients: what it leaves in the
    store, and what it logs. *)
Lemma guarded_alter_loop (f : parameter T → parameter T)
    (ev : loc → event Loss) ps w :
  (∀ x, is_Some (grad (f x)) ↔ is_Some (grad x)) →
  (∀ x, grad x = None → f x = x) →
  let step p w' :=
    match grad_of (heap w') p with
    | Some _ => log (ev p) (set_heap (alter f p (heap w')) w')
    | None => w'
    end in
  foldl (λ w' p, step p w') w ps
  = World (foldl (λ h' q, alter f q h') (heap w) ps) (lib w)
          (trace w ++ (ev <$> filter (λ p, is_Some (grad_of (heap w) p)) ps)).
Proof.
  intros Hsome Hnone step. subst step. cbn beta. revert w.
  induction ps as [|p ps IH]; intros w.
  { cbn. rewrite app_nil_r. by destruct w. }
  cbn [foldl]. rewrite IH.
  destruct (grad_of (heap w) p) as [g|] eqn:Hg.
  - cbn [heap lib trace log set_heap].
    rewrite filter_cons_True by (by rewrite Hg).
    rewrite fmap_cons, <- app_assoc. cbn [app]. f_equal. f_equal. f_equal.
    f_equal. apply list_filter_iff. intros q.
    by apply grad_of_alter_is_Some.
  - rewrite filter_cons_False by (rewrite Hg; by intros [? ?]).
    by rewrite (alter_without_grad f p (heap w) Hnone Hg).
Qed.

(** *** Tuples of corresponding parameters *)

Lemma column_at_elem models j tup p :
  column_at models j = Some tup → p ∈ tup →
  ∃ k model, models !! k = Some model ∧ model !! j = Some p.
Proof.
  unfold column_at. intros Hcol%mapM_Some_1 Hp.
  apply list_elem_of_lookup in Hp as [k Hk].
  destruct (Forall2_lookup_r _ _ _ _ _ Hcol Hk) as (model & Hm & Hj).
  by exists k, model.
Qed.

Lemma column_at_head model_0 secondaries j tup :
  column_at (model_0 :: secondaries) j = Some tup →
  ∃ p0, head tup = Some p0 ∧ model_0 !! j = Some p0.
Proof.
  unfold column_at. intros Hcol%mapM_Some_1.
  inversion Hcol as [|? p0 ? ? Hp0 _]; subst. by exists p0.
Qed.

(** Distinct parameter objects: an object sits at one place of one
    replica. *)
Lemma NoDup_concat_lookup models k k' (m m' : list loc) a b p :
  NoDup (concat models) →
  models !! k = Some m → models !! k' = Some m' →
  m !! a = Some p → m' !! b = Some p → k = k' ∧ a = b.
Proof.
  revert k k'. induction models as [|m0 models IH]; intros k k' Hnd; [done|].
  cbn [concat] in Hnd. apply NoDup_app in Hnd as (Hm0 & Hdisj & Hrest).
  assert (Hin : ∀ i (x : list loc) c, models !! i = Some x → x !! c = Some p →
                  p ∈ concat models).
  { intros i x c Hx Hc. apply list_elem_of_In, in_concat. exists x.
    split; apply list_elem_of_In; by eapply list_elem_of_lookup_2. }
  destruct k as [|k], k' as [|k']; cbn; intros Hk Hk' Ha Hb.
  - simplify_eq. split; [done|]. exact (NoDup_lookup _ _ _ _ Hm0 Ha Hb).
  - simplify_eq. exfalso.
    exact (Hdisj p (list_elem_of_lookup_2 _ _ _ Ha) (Hin _ _ _ Hk' Hb)).
  - simplify_eq. exfalso.
    exact (Hdisj p (list_elem_of_lookup_2 _ _ _ Hb) (Hin _ _ _ Hk Ha)).
  - destruct (IH k k' Hrest Hk Hk' Ha Hb) as [-> ->]. done.
Qed.

Lemma columns_disjoint models a b ta tb p :
  NoDup (concat models) → a ≠ b →
  column_at models a = Some ta → column_at models b = Some tb →
  p ∈ ta → p ∉ tb.
Proof.
  intros Hnd Hab Ha Hb Hpa Hpb.
  destruct (column_at_elem _ _ _ _ Ha Hpa) as (k & m & Hk & Hm).
  destruct (column_at_elem _ _ _ _ Hb Hpb) as (k' & m' & Hk' & Hm').
  destruct (NoDup_concat_lookup _ _ _ _ _ _ _ _ Hnd Hk Hk' Hm Hm'). done.
Qed.

Lemma mapM_ext_in {A B} (f g : A → option B) (l : list A) :
  (∀ x, x ∈ l → f x = g x) → mapM f l = mapM g l.
Proof.
  induction l as [|x l IH]; intros Hfg; [done|]. cbn.
  rewrite (Hfg x) by apply list_elem_of_here.
  rewrite IH; [done|]. intros y Hy. apply Hfg. by apply list_elem_of_further.
Qed.

Lemma omap_ext_in {A B} (f g : A → option B) (l : list A) :
  (∀ x, x ∈ l → f x = g x) → omap f l = omap g l.
Proof.
  induction l as [|x l IH]; intros Hfg; [done|]. cbn.
  rewrite (Hfg x) by apply list_elem_of_here.
  rewrite IH; [done|]. intros y Hy. apply Hfg. by apply list_elem_of_further.
Qed.

(** A write to the head of one tuple is not seen by the tuples at other
    indices. *)
Lemma averaged_at_alter models (f : parameter T → parameter T) h a ta p0 b :
  NoDup (concat models) → a ≠ b →
  column_at models a = Some ta → p0 ∈ ta →
  averaged_at models (alter f p0 h) b = averaged_at models h b.
Proof.
  intros Hnd Hab Ha Hp0. unfold averaged_at.
  destruct (column_at models b) as [tb|] eqn:Hb; [|done]. cbn.
  rewrite (mapM_ext_in (grad_of (alter f p0 h)) (grad_of h)); [done|].
  intros q Hq. rewrite grad_of_alter. rewrite decide_False; [done|].
  intros ->. by eapply (columns_disjoint models a b).
Qed.

Lemma averaged_at_Some model_0 secondaries h j p0 gs :
  averaged_at (model_0 :: secondaries) h j = Some (p0, gs) ↔
  ∃ tup, column_at (model_0 :: secondaries) j = Some tup ∧
         mapM (grad_of h) tup = Some gs ∧ model_0 !! j = Some p0.
Proof.
  unfold averaged_at. split.
  - destruct (column_at _ j) as [tup|] eqn:Hcol; [|done]. cbn.
    destruct (mapM _ tup) as [gs'|] eqn:Hgs; [|done]. cbn.
    destruct (column_at_head _ _ _ _ Hcol) as (p0' & Hhd & Hj).
    rewrite Hhd. cbn. intros [= -> ->]. by exists tup.
  - intros (tup & Hcol & Hgs & Hj). rewrite Hcol. cbn. rewrite Hgs. cbn.
    destruct (column_at_head _ _ _ _ Hcol) as (p0' & Hhd & Hj').
    rewrite Hhd. cbn. congruence.
Qed.

(** The averaging loop reads every tuple as the store was before the
    loop: each write goes to a primary parameter of another index. *)
Lemma average_fold d0 model_0 secondaries js w :
  NoDup (concat (model_0 :: secondaries)) → NoDup js →
  let models := model_0 :: secondaries in
  foldl (λ w' tup, average_step d0 tup w') w (omap (column_at models) js)
  = World (write_averages d0 (heap w) (omap (averaged_at models (heap w)) js))
          (lib w)
          (trace w
           ++ (EvCopyGrad <$> (omap (averaged_at models (heap w)) js).*1)).
Proof.
  intros Hnd Hjs models. subst models. revert w.
  induction js as [|a js IH]; intros w.
  { cbn. rewrite app_nil_r. by destruct w. }
  apply NoDup_cons in Hjs as [Ha Hjs]. specialize (IH Hjs).
  cbn [omap list_omap].
  destruct (averaged_at (model_0 :: secondaries) (heap w) a) as [[p0 gs]|] eqn:Hav.
  - apply averaged_at_Some in Hav as (tup & Hcol & Hgs & Hj).
    rewrite Hcol. cbn [foldl]. unfold average_step at 2. rewrite Hgs.
    destruct (column_at_head _ _ _ _ Hcol) as (p0' & Hhd & Hj').
    rewrite Hhd. assert (p0' = p0) as -> by congruence.
    rewrite IH. cbn [copy_grad_step log set_heap heap lib trace].
    assert (Hsame : omap (averaged_at (model_0 :: secondaries)
                      (alter (copy_grad (mean_stacked d0 (to d0 <$> gs))) p0
                             (heap w))) js
                    = omap (averaged_at (model_0 :: secondaries) (heap w)) js).
    { apply omap_ext_in. intros b Hb.
      apply (averaged_at_alter (model_0 :: secondaries) _ _ a tup); [done| |done|].
      - intros ->. done.
      - destruct tup; simplify_eq/=. apply list_elem_of_here. }
    rewrite Hsame. unfold write_averages. cbn [fmap list_fmap foldl fst snd].
    f_equal. by rewrite <- app_assoc.
  - destruct (column_at (model_0 :: secondaries) a) as [tup|] eqn:Hcol; [|by rewrite IH].
    cbn [foldl].
    assert (Hskip : average_step d0 tup w = w).
    { unfold average_step. unfold averaged_at in Hav. rewrite Hcol in Hav.
      cbn in Hav.
      destruct (mapM (grad_of (heap w)) tup) as [gs|]; [|done].
      cbn in Hav. destruct (head tup); [done|done]. }
    rewrite Hskip. by rewrite IH.
Qed.

Lemma write_averages_lookup_other d0 h
    (plan : list (loc * list (tensor T))) p :
  p ∉ plan.*1 → write_averages d0 h plan !! p = h !! p.
Proof.
  unfold write_averages. revert h.
  induction plan as [|[q gq] plan IH]; intros h Hp; [done|].
  cbn in Hp. apply not_elem_of_cons in Hp as [Hne Hp].
  cbn [foldl fst snd]. rewrite IH by done. by rewrite lookup_alter_ne.
Qed.

Lemma write_averages_lookup d0 h (plan : list (loc * list (tensor T))) p gs :
  NoDup plan.*1 → (p, gs) ∈ plan →
  write_averages d0 h plan !! p
  = copy_grad (mean_stacked d0 (to d0 <$> gs)) <$> h !! p.
Proof.
  revert h. induction plan as [|[q gq] plan IH]; intros h Hnd Hin.
  { by apply elem_of_nil in Hin. }
  cbn in Hnd. apply NoDup_cons in Hnd as [Hq Hnd].
  change (write_averages d0 h ((q, gq) :: plan))
    with (write_averages d0
            (alter (copy_grad (mean_stacked d0 (to d0 <$> gq))) q h) plan).
  apply elem_of_cons in Hin as [Heq|Hin].
  - simplify_eq. rewrite write_averages_lookup_other by done.
    by rewrite lookup_alter_eq.
  - rewrite IH by done. rewrite lookup_alter_ne; [done|].
    intros ->. apply Hq. apply list_elem_of_fmap. by exists (p, gs).
Qed.

Lemma averaged_heads_NoDup model_0 secondaries h js :
  NoDup model_0 → NoDup js →
  NoDup (omap (averaged_at (model_0 :: secondaries) h) js).*1.
Proof.
  intros Hm0. induction js as [|a js IH]; intros Hjs.
  { cbn. apply NoDup_nil_2. }
  apply NoDup_cons in Hjs as [Ha Hjs]. cbn [omap list_omap].
  destruct (averaged_at _ h a) as [[p0 gs]|] eqn:Hav; [|by apply IH].
  cbn. apply NoDup_cons. split; [|by apply IH].
  intros Hin. apply list_elem_of_fmap in Hin as ([q gq] & Hq & Hin).
  cbn in Hq. subst q.
  apply list_elem_of_omap in Hin as (b & Hb & Hav').
  apply averaged_at_Some in Hav as (_ & _ & _ & Hja).
  apply averaged_at_Some in Hav' as (_ & _ & _ & Hjb).
  rewrite (NoDup_lookup _ _ _ _ Hm0 Hja Hjb) in Ha. done.
Qed.

(** *** The phases of [_backward_and_step_multi_gpu] *)

Lemma bind_returns {A B} (m : M T Loss L A) (k : A → M T Loss L B) w a w' :
  m w = (inr a, w') → bind m k w = k a w'.
Proof. intros Hm. unfold bind. by rewrite Hm. Qed.

Lemma backward_phase (use_amp : bool) (losses : list Loss) models w :
  (if use_amp return M T Loss L unit
   then
     bind (for_ losses (call_backward true)) (λ _,
     bind call_unscale_ (λ _,
     bind (read (λ w', get_scale (lib w'))) (λ scale,
     for_ (drop 1 models) (λ model, for_ model (div_grad scale)))))
   else for_ losses (call_backward false)) w
  = (inr (),
     let w1 := backward_pass use_amp losses w in
     if use_amp
     then foldl (λ w' p, div_grad_step (get_scale (lib w1)) p w') w1
                (concat (drop 1 models))
     else w1).
Proof.
  unfold backward_pass. destruct use_amp.
  - erewrite bind_returns;
      [|by apply (for__update (backward_step true))].
    erewrite bind_returns; [|reflexivity].
    erewrite bind_returns; [|reflexivity].
    apply for__nested.
  - by apply (for__update (backward_step false)).
Qed.

Lemma synchronize_phase (devices : list device) w :
  for_ devices synchronize w
  = (inr (), World (heap w) (lib w)
                   (trace w ++ (EvSynchronize <$> devices))).
Proof.
  rewrite (for__update (λ d, log (EvSynchronize d))) by done.
  f_equal. revert w. induction devices as [|d devices IH]; intros w.
  { cbn. rewrite app_nil_r. by destruct w. }
  cbn [foldl]. rewrite IH. cbn. by rewrite <- app_assoc.
Qed.

Lemma zip_star_head model_0 secondaries tup :
  tup ∈ zip_star (model_0 :: secondaries) → is_Some (head tup).
Proof.
  unfold zip_star. intros (j & _ & Hcol)%list_elem_of_omap.
  destruct (column_at_head _ _ _ _ Hcol) as (p0 & Hhd & _). by exists p0.
Qed.

Lemma average_phase d0 ds model_0 secondaries w :
  NoDup (concat (model_0 :: secondaries)) →
  let models := model_0 :: secondaries in
  let plan := omap (averaged_at models (heap w)) (seq 0 (length model_0)) in
  for_ (zip_star models) (average_tuple (d0 :: ds)) w
  = (inr (), World (write_averages d0 (heap w) plan) (lib w)
                   (trace w ++ (EvCopyGrad <$> plan.*1))).
Proof.
  intros Hnd models plan.
  rewrite (for__update (average_step d0)).
  - f_equal. apply (average_fold d0 model_0 secondaries); [done|].
    apply NoDup_seq.
  - intros tup Htup w'. apply zip_star_head in Htup as [p0 Hp0].
    unfold average_tuple, average_step, bind, read. rewrite Hp0.
    destruct (mapM (grad_of (heap w')) tup) as [gs|]; [|done].
    destruct tup as [|p0' tup]; simplify_eq/=. done.
Qed.

Lemma clip_then_step_trace (use_amp : bool) model_0 (clip : F) w :
  trace (clip_then_step use_amp model_0 clip w)
  = trace w ++ EvClipGradNorm
               :: (if use_amp then [EvScalerStep; EvScalerUpdate]
                   else [EvOptimizerStep]).
Proof.
  unfold clip_then_step, scaler_update_step, scaler_step_step,
    optimizer_step_step, clip_step. cbn [log set_heap heap lib trace].
  destruct use_amp.
  - destruct (scaler_step _ _) as [l h]. cbn. by rewrite <- !app_assoc.
  - destruct (optimizer_step _ _) as [l h]. cbn. by rewrite <- !app_assoc.
Qed.

(** The phases of the step on distinct parameter objects, in the
    definitions of the step itself. *)
Lemma backward_and_step_multi_gpu_phases
    (losses : list Loss) model_0 secondaries (d0 : device)
    (ds : list device) (clip : F) (use_amp : bool) w :
  NoDup (concat (model_0 :: secondaries)) →
  let models := model_0 :: secondaries in
  let devices := d0 :: ds in
  let w1 := backward_pass use_amp losses w in
  let scale := get_scale (lib w1) in
  let divided :=
    if use_amp
    then filter (λ p, is_Some (grad_of (heap w1) p)) (concat secondaries)
    else [] in
  ∃ h2 h3,
    (∀ p, h2 !! p
          = if use_amp && bool_decide (p ∈ concat secondaries)
            then div_param scale <$> heap w1 !! p
            else heap w1 !! p) ∧
    (∀ j p0 tup gs,
       model_0 !! j = Some p0 → column_at models j = Some tup →
       mapM (grad_of h2) tup = Some gs →
       length gs = length models ∧
       h3 !! p0 = copy_grad (mean_stacked d0 (to d0 <$> gs)) <$> h2 !! p0 ∧
       payload <$> grad_of h3 p0 = Some (stack_mean (payload <$> gs))) ∧
    (∀ p, p ∉ averaged models h2 → h3 !! p = h2 !! p) ∧
    _backward_and_step_multi_gpu losses models devices clip use_amp w
    = (inr (gradient_norm model_0 h3),
       clip_then_step use_amp model_0 clip
         (World h3 (lib w1)
                (trace w1 ++ (EvDivGrad <$> divided)
                 ++ (EvSynchronize <$> devices)
                 ++ (EvCopyGrad <$> averaged models h2)))) ∧
    trace (_backward_and_step_multi_gpu losses models devices clip use_amp
             w).2
    = trace w1 ++ (EvDivGrad <$> divided)
      ++ (EvSynchronize <$> devices)
      ++ (EvCopyGrad <$> averaged models h2)
      ++ EvClipGradNorm
         :: (if use_amp then [EvScalerStep; EvScalerUpdate]
             else [EvOptimizerStep]).
Proof.
  intros Hnd models devices w1 scale divided.
  assert (Hw1 : backward_pass use_amp losses w = w1) by done.
  clearbody w1.
  assert (Hnd' : NoDup model_0 ∧ NoDup (concat secondaries)).
  { cbn [concat] in Hnd. apply NoDup_app in Hnd. tauto. }
  destruct Hnd' as [Hm0 Hsec].
  (* the world after the hand-written unscaling *)
  set (w2 := if use_amp
             then foldl (λ w' p, div_grad_step scale p w') w1
                        (concat secondaries)
             else w1).
  assert (Hw2' : w2 = if use_amp
                      then foldl (λ w' p, div_grad_step scale p w') w1
                                 (concat secondaries)
                      else w1) by done.
  assert (Hw2 : w2 = World
            (if use_amp
             then foldl (λ h' q, alter (div_param scale) q h') (heap w1)
                        (concat secondaries)
             else heap w1)
            (lib w1) (trace w1 ++ (EvDivGrad <$> divided))).
  { subst w2 divided. destruct use_amp.
    - apply (guarded_alter_loop (div_param scale) EvDivGrad).
      + apply div_param_is_Some.
      + apply div_param_without_grad.
    - cbn. rewrite app_nil_r. by destruct w1. }
  clearbody w2.
  set (plan := omap (averaged_at models (heap w2)) (seq 0 (length model_0))).
  exists (heap w2), (write_averages d0 (heap w2) plan).
  assert (Hplan : NoDup plan.*1)
    by (apply averaged_heads_NoDup; [done|apply NoDup_seq]).
  assert (Hrun :
    _backward_and_step_multi_gpu losses models devices clip use_amp w
    = (inr (gradient_norm model_0 (write_averages d0 (heap w2) plan)),
       clip_then_step use_amp model_0 clip
         (World (write_averages d0 (heap w2) plan) (lib w1)
                (trace w1 ++ (EvDivGrad <$> divided)
                 ++ (EvSynchronize <$> devices)
                 ++ (EvCopyGrad <$> averaged models (heap w2)))))); last first.
  { split_and!;
      [| | |exact Hrun
       |rewrite Hrun; cbn [snd]; rewrite clip_then_step_trace;
        cbn [trace]; by rewrite <- !app_assoc].
    - intros p. rewrite Hw2. cbn [heap]. destruct use_amp; [|done].
      rewrite foldl_alter_lookup by done. cbn [andb].
      by destruct (decide (p ∈ concat secondaries));
        [rewrite bool_decide_eq_true_2|rewrite bool_decide_eq_false_2].
    - intros j p0 tup gs Hj Hcol Hgs.
      assert (Hin : (p0, gs) ∈ plan).
      { apply list_elem_of_omap. exists j. split.
        - apply elem_of_seq. split; [lia|]. cbn.
          by eapply lookup_lt_Some.
        - apply averaged_at_Some. by exists tup. }
      assert (Hlk := write_averages_lookup d0 (heap w2) plan p0 gs Hplan Hin).
      split.
      { rewrite <- (length_mapM _ _ _ Hgs). symmetry.
        exact (length_mapM _ _ _ Hcol). }
      split; [exact Hlk|].
      unfold grad_of. rewrite Hlk.
      destruct (column_at_head _ _ _ _ Hcol) as (p0' & Hhd & Hj').
      assert (p0' = p0) as -> by congruence.
      destruct tup as [|q tup]; [done|]. cbn in Hhd. injection Hhd as ->.
      cbn in Hgs.
      destruct (grad_of (heap w2) p0) as [g0|] eqn:Hg0; [|done].
      unfold grad_of in Hg0.
      destruct (heap w2 !! p0) as [x|]; [|done]. cbn in Hg0. cbn.
      rewrite Hg0. cbn. f_equal. f_equal. rewrite <- list_fmap_compose.
      by apply list_fmap_ext.
    - intros p Hp. by apply write_averages_lookup_other. }
  unfold _backward_and_step_multi_gpu.
  erewrite bind_returns; [|apply backward_phase].
  cbn zeta. change (drop 1 models) with secondaries.
  rewrite Hw1. fold scale. rewrite <- Hw2'.
  erewrite bind_returns; [|apply synchronize_phase].
  erewrite bind_returns; [|by apply average_phase].
  cbn [heap lib trace].
  erewrite bind_returns; [|reflexivity].
  erewrite bind_returns; [|reflexivity].
  erewrite bind_returns; [|reflexivity].
  cbn [heap]. unfold averaged, clip_then_step.
  subst plan models devices. cbn [head default].
  rewrite (f_equal trace Hw2), (f_equal lib Hw2). cbn [trace lib].
  rewrite <- !app_assoc. by destruct use_amp.
Qed.

Lemma backward_steps (scaled : bool) (losses : list Loss) w :
  foldl (λ w' loss, backward_step scaled loss w') w losses
  = World (foldl (λ h loss,
                    backward (if scaled then scale_loss (lib w) loss
                              else loss) h)
                 (heap w) losses)
          (lib w) (trace w ++ (EvBackward scaled <$> losses)).
Proof.
  revert w. induction losses as [|loss losses IH]; intros w.
  { cbn. rewrite app_nil_r. by destruct w. }
  cbn [foldl]. rewrite IH. unfold backward_step. cbn [log set_heap heap lib trace].
  rewrite fmap_cons, <- app_assoc. done.
Qed.

Lemma gradient_norm_omap model h :
  gradient_norm model h
  = float_sqrt
      (foldl (λ total g, float_add total (float_pow2 (norm_item (payload g))))
             float_zero (omap (λ p, h !! p ≫= grad) model)).
Proof.
  unfold gradient_norm. f_equal. generalize (float_zero (F := F)).
  induction model as [|p model IH]; intros a; [done|].
  cbn [foldl omap list_omap]. rewrite IH. unfold grad_of.
  by destruct (h !! p ≫= grad) as [g|].
Qed.

(** C1. For every list of replicas made of distinct parameter objects,
    with primary [model_0], and devices [d0 :: ds]: after the backward
    passes (and, under AMP, the scaler's unscaling), under AMP every
    gradient present on a secondary replica is divided by the scaler's
    scale; then every device is synchronized; then, for each tuple of
    corresponding parameters in which every replica has a gradient, the
    primary's gradient is overwritten with the mean of the stacked
    gradients, each moved to [d0], and no other parameter changes; only
    then are the primary's gradients clipped and one step taken, as the
    trace of the call shows.  The call returns the norm of the averaged,
    unclipped gradients.  Each phase is stated in the operations of the
    library: the backward passes and the unscaling that make [w1], the
    division by the scale, the mean written to the primary, the norm that
    is returned, and [clip_grad_norm_] on the averaged gradients followed
    by the one step. *)
Theorem backward_and_step_multi_gpu_spec
    (losses : list Loss) model_0 secondaries (d0 : device)
    (ds : list device) (clip : F) (use_amp : bool) w :
  NoDup (concat (model_0 :: secondaries)) →
  let models := model_0 :: secondaries in
  let devices := d0 :: ds in
  let w1 := backward_pass use_amp losses w in
  let scale := get_scale (lib w1) in
  let divided :=
    if use_amp
    then filter (λ p, is_Some (grad_of (heap w1) p)) (concat secondaries)
    else [] in
  ∃ h2 h3,
    (∀ p, h2 !! p
          = if use_amp && bool_decide (p ∈ concat secondaries)
            then div_param scale <$> heap w1 !! p
            else heap w1 !! p) ∧
    (∀ j p0 tup gs,
       model_0 !! j = Some p0 → column_at models j = Some tup →
       mapM (grad_of h2) tup = Some gs →
       length gs = length models ∧
       h3 !! p0 = copy_grad (mean_stacked d0 (to d0 <$> gs)) <$> h2 !! p0 ∧
       payload <$> grad_of h3 p0 = Some (stack_mean (payload <$> gs))) ∧
    (∀ p, p ∉ averaged models h2 → h3 !! p = h2 !! p) ∧
    _backward_and_step_multi_gpu losses models devices clip use_amp w
    = (inr (gradient_norm model_0 h3),
       clip_then_step use_amp model_0 clip
         (World h3 (lib w1)
                (trace w1 ++ (EvDivGrad <$> divided)
                 ++ (EvSynchronize <$> devices)
                 ++ (EvCopyGrad <$> averaged models h2)))) ∧
    trace (_backward_and_step_multi_gpu losses models devices clip use_amp
             w).2
    = trace w1 ++ (EvDivGrad <$> divided)
      ++ (EvSynchronize <$> devices)
      ++ (EvCopyGrad <$> averaged models h2)
      ++ EvClipGradNorm
         :: (if use_amp then [EvScalerStep; EvScalerUpdate]
             else [EvOptimizerStep]) ∧
    (* the backward passes, and under AMP the unscaling *)
    (let backpropagated :=
       foldl (λ h loss,
                backward (if use_amp then scale_loss (lib w) loss else loss)
                         h)
             (heap w) losses in
     (lib w1, heap w1)
     = (if use_amp then unscale_ (lib w) backpropagated
        else (lib w, backpropagated)) ∧
     trace w1
     = trace w ++ (EvBackward use_amp <$> losses)
       ++ (if use_amp then [EvUnscale] else [])) ∧
    (* the division of the secondaries' gradients by the scale *)
    (use_amp = true →
     ∀ p x, p ∈ concat secondaries → heap w1 !! p = Some x →
       h2 !! p
       = Some (Param (data x)
                     ((λ g, Tensor (tensor_div (payload g) scale) (dev g))
                        <$> grad x))) ∧
    (* the mean written to the primary's gradient *)
    (∀ j p0 tup gs x,
       model_0 !! j = Some p0 → column_at models j = Some tup →
       mapM (λ p, h2 !! p ≫= grad) tup = Some gs → h2 !! p0 = Some x →
       to d0 <$> gs = (λ g, Tensor (payload g) d0) <$> gs ∧
       h3 !! p0
       = Some (Param (data x)
                     ((λ g, Tensor (stack_mean (payload <$> gs)) (dev g))
                        <$> grad x))) ∧
    (* the tuples of corresponding parameters, and the primaries whose
       gradient is overwritten *)
    (∀ j tup, column_at models j = Some tup
              ↔ Forall2 (λ m p, m !! j = Some p) models tup) ∧
    (∀ p, p ∈ averaged models h2
          ↔ ∃ j tup gs,
              model_0 !! j = Some p ∧
              Forall2 (λ m q, m !! j = Some q) models tup ∧
              mapM (λ q, h2 !! q ≫= grad) tup = Some gs) ∧
    (* the norm returned, and the clipping before the one step *)
    (let run :=
       _backward_and_step_multi_gpu losses models devices clip use_amp w in
     let clipped := clip_grad_norm_ model_0 clip h3 in
     run.1
     = inr (float_sqrt
              (foldl (λ total g,
                        float_add total (float_pow2 (norm_item (payload g))))
                     float_zero (omap (λ p, h3 !! p ≫= grad) model_0))) ∧
     (lib run.2, heap run.2)
     = (if use_amp
        then (scaler_update (scaler_step (lib w1) clipped).1,
              (scaler_step (lib w1) clipped).2)
        else optimizer_step (lib w1) clipped)).
Proof.
  intros Hnd models devices w1 scale divided.
  destruct (backward_and_step_multi_gpu_phases losses model_0 secondaries d0
              ds clip use_amp w Hnd)
    as (h2 & h3 & Hdiv & Havg & Hother & Hrun & Htrace).
  fold models devices w1 scale divided in Hdiv, Havg, Hother, Hrun, Htrace.
  exists h2, h3.
  split; [exact Hdiv|]. split; [exact Havg|]. split; [exact Hother|].
  split; [exact Hrun|]. split; [exact Htrace|].
  split; [|split; [|split; [|split; [|split]]]].
  - cbn zeta. subst w1. unfold backward_pass. rewrite backward_steps.
    destruct use_amp; [|by rewrite app_nil_r].
    unfold unscale_step. cbn [heap lib trace].
    destruct (unscale_ _ _) as [l h]. cbn [heap lib trace].
    by rewrite <- app_assoc.
  - intros -> p x Hp Hx. rewrite Hdiv. cbn [andb].
    rewrite bool_decide_eq_true_2 by done. by rewrite Hx.
  - intros j p0 tup gs x Hj Hcol Hgs Hx.
    destruct (Havg j p0 tup gs Hj Hcol Hgs) as (_ & Hh3 & _).
    split; [done|].
    rewrite Hh3, Hx. cbn. unfold copy_grad. cbn. f_equal. f_equal.
    apply option_fmap_ext. intros g. unfold copy_, mean_stacked. cbn.
    f_equal. f_equal. rewrite <- list_fmap_compose. by apply list_fmap_ext.
  - intros j tup. apply mapM_Some.
  - intros p. unfold averaged. rewrite list_elem_of_fmap. split.
    + intros ([p' gs] & -> & (j & _ & Hat)%list_elem_of_omap).
      apply averaged_at_Some in Hat as (tup & Hcol & Hgs & Hj).
      exists j, tup, gs. split; [done|]. split; [|done].
      by apply mapM_Some.
    + intros (j & tup & gs & Hj & Hcol & Hgs). exists (p, gs).
      split; [done|]. apply list_elem_of_omap. exists j. split.
      * apply elem_of_seq. split; [lia|]. cbn. by eapply lookup_lt_Some.
      * apply averaged_at_Some. exists tup. split; [|done].
        by apply mapM_Some.
  - cbn zeta. rewrite Hrun. cbn [fst snd]. split.
    + by rewrite gradient_norm_omap.
    + unfold clip_then_step, scaler_update_step, scaler_step_step,
        optimizer_step_step, clip_step. cbn [log set_heap heap lib trace].
      destruct use_amp.
      * by destruct (scaler_step _ _).
      * by destruct (optimizer_step _ _).
Qed.

(** *** [_sync_models] *)

Lemma zip_snd_elem (l k : list loc) x : x ∈ (zip l k).*2 → x ∈ k.
Proof.
  intros ([a b] & -> & Hin)%list_elem_of_fmap. by eapply elem_of_zip_r.
Qed.

Lemma zip_fst_elem (l k : list loc) x : x ∈ (zip l k).*1 → x ∈ l.
Proof.
  intros ([a b] & -> & Hin)%list_elem_of_fmap. by eapply elem_of_zip_l.
Qed.

Lemma zip_snd_NoDup (l k : list loc) : NoDup k → NoDup (zip l k).*2.
Proof.
  revert k. induction l as [|a l IH]; intros [|b k] Hnd;
    try (cbn; apply NoDup_nil_2).
  apply NoDup_cons in Hnd as [Hb Hnd]. cbn. apply NoDup_cons.
  split; [|by apply IH]. intros Hin. by apply Hb, (zip_snd_elem l).
Qed.

(** The pairs the copying loop visits: every secondary against the
    primary, position by position. *)
Lemma pairs_snd_elem (model_0 : list loc) secondaries (x : loc) :
  x ∈ (concat (zip model_0 <$> secondaries)).*2 → x ∈ concat secondaries.
Proof.
  induction secondaries as [|m secondaries IH]; [done|]. cbn.
  rewrite fmap_app, !elem_of_app. intros [Hx|Hx]; [left|right; by apply IH].
  by apply (zip_snd_elem model_0).
Qed.

Lemma pairs_fst_elem (model_0 : list loc) secondaries (x : loc) :
  x ∈ (concat (zip model_0 <$> secondaries)).*1 → x ∈ model_0.
Proof.
  induction secondaries as [|m secondaries IH]; cbn.
  { by intros ?%elem_of_nil. }
  rewrite fmap_app, elem_of_app. intros [Hx|Hx]; [|by apply IH].
  by apply (zip_fst_elem model_0 m).
Qed.

Lemma pairs_snd_NoDup (model_0 : list loc) secondaries :
  NoDup (concat secondaries) →
  NoDup (concat (zip model_0 <$> secondaries)).*2.
Proof.
  induction secondaries as [|m secondaries IH]; cbn; [by constructor|].
  intros (Hm & Hdisj & Hrest)%NoDup_app. rewrite fmap_app.
  apply NoDup_app. split_and!.
  - by apply zip_snd_NoDup.
  - intros x Hx Hx'. apply (Hdisj x).
    + by apply (zip_snd_elem model_0).
    + by apply (pairs_snd_elem model_0).
  - by apply IH.
Qed.

Lemma pairs_elem (model_0 : list loc) secondaries m j (p0 : loc) p :
  m ∈ secondaries → model_0 !! j = Some p0 → m !! j = Some p →
  (p0, p) ∈ concat (zip model_0 <$> secondaries).
Proof.
  intros Hm Hp0 Hp. apply list_elem_of_In, in_concat.
  exists (zip model_0 m). split; apply list_elem_of_In.
  - apply list_elem_of_fmap. by exists m.
  - apply list_elem_of_lookup. exists j.
    apply lookup_zip_with_Some. by exists p0, p.
Qed.

Lemma copy_data_step_lib p0 p w : lib (copy_data_step p0 p w) = lib w.
Proof.
  unfold copy_data_step.
  by destruct (heap w !! p0), (heap w !! p).
Qed.

Lemma copy_data_step_other p0 p w l :
  l ≠ p → heap (copy_data_step p0 p w) !! l = heap w !! l.
Proof.
  intros Hl. unfold copy_data_step.
  destruct (heap w !! p0), (heap w !! p); try done.
  cbn. by rewrite lookup_insert_ne.
Qed.

Lemma copy_data_step_grad p0 p w l :
  grad <$> heap (copy_data_step p0 p w) !! l = grad <$> heap w !! l.
Proof.
  unfold copy_data_step.
  destruct (heap w !! p0) as [src|]; [|done].
  destruct (heap w !! p) as [dst|] eqn:Hdst; [|done]. cbn.
  destruct (decide (l = p)) as [->|Hl].
  - by rewrite lookup_insert_eq, Hdst.
  - by rewrite lookup_insert_ne.
Qed.

Lemma copy_fold_grad (pairs : list (loc * loc)) w l :
  grad <$> heap (foldl (λ w' pp, copy_data_step pp.1 pp.2 w') w pairs) !! l
  = grad <$> heap w !! l.
Proof.
  revert w. induction pairs as [|pp pairs IH]; intros w; [done|].
  cbn [foldl]. by rewrite IH, copy_data_step_grad.
Qed.

Lemma copy_fold_lib (pairs : list (loc * loc)) w :
  lib (foldl (λ w' pp, copy_data_step pp.1 pp.2 w') w pairs) = lib w.
Proof.
  revert w. induction pairs as [|pp pairs IH]; intros w; [done|].
  cbn [foldl]. by rewrite IH, copy_data_step_lib.
Qed.

Lemma copy_fold_other (pairs : list (loc * loc)) w l :
  l ∉ pairs.*2 →
  heap (foldl (λ w' pp, copy_data_step pp.1 pp.2 w') w pairs) !! l
  = heap w !! l.
Proof.
  revert w. induction pairs as [|pp pairs IH]; intros w Hl; [done|].
  cbn in Hl. apply not_elem_of_cons in Hl as [Hne Hl].
  cbn [foldl]. rewrite IH by done. by apply copy_data_step_other.
Qed.

(** Every destination ends with the data of its source, as both were
    before the loop, on its own device. *)
Lemma copy_fold_lookup (pairs : list (loc * loc)) w p0 p src dst :
  NoDup pairs.*2 → p0 ∉ pairs.*2 → (p0, p) ∈ pairs →
  heap w !! p0 = Some src → heap w !! p = Some dst →
  heap (foldl (λ w' pp, copy_data_step pp.1 pp.2 w') w pairs) !! p
  = Some (Param (copy_ (data dst) (to (dev (data dst)) (data src)))
                (grad dst)).
Proof.
  revert w. induction pairs as [|[q0 q] pairs IH];
    intros w Hnd Hp0 Hin Hsrc Hdst.
  { by apply elem_of_nil in Hin. }
  cbn in Hnd, Hp0. apply NoDup_cons in Hnd as [Hq Hnd].
  apply not_elem_of_cons in Hp0 as [Hp0q Hp0].
  cbn [foldl fst snd]. apply elem_of_cons in Hin as [Heq|Hin].
  - injection Heq as <- <-. rewrite copy_fold_other by done.
    unfold copy_data_step. rewrite Hsrc, Hdst. cbn.
    by rewrite lookup_insert_eq.
  - assert (Hpq : p ≠ q).
    { intros ->. apply Hq. apply list_elem_of_fmap. by exists (p0, q). }
    apply IH; try done.
    + by rewrite copy_data_step_other.
    + by rewrite copy_data_step_other.
Qed.

(** C8. For every list of replicas made of distinct parameter objects:
    after [_sync_models], every parameter of a secondary replica that has
    a counterpart in the primary [model_0] holds the counterpart's data,
    copied to the secondary's own device; every gradient a secondary
    parameter had is zeroed, that is, holds what [zero_] leaves in it,
    where it was; and the primary's parameters and gradients, like the
    state of the optimizer, are as they were. *)
Theorem sync_models_spec (model_0 : list loc) secondaries w :
  NoDup (concat (model_0 :: secondaries)) →
  ∃ w',
    _sync_models (model_0 :: secondaries) w = (inr (), w') ∧
    (∀ m j p0 p src dst,
       m ∈ secondaries → model_0 !! j = Some p0 → m !! j = Some p →
       heap w !! p0 = Some src → heap w !! p = Some dst →
       heap w' !! p
       = Some (Param (Tensor (payload (data src)) (dev (data dst)))
                     (zero_ <$> grad dst))) ∧
    (∀ p dst,
       p ∈ concat secondaries → heap w !! p = Some dst →
       ∃ dst', heap w' !! p = Some dst' ∧ grad dst' = zero_ <$> grad dst) ∧
    (∀ p, p ∈ model_0 → heap w' !! p = heap w !! p) ∧
    lib w' = lib w ∧
    (∀ p dst,
       p ∈ concat secondaries → heap w !! p = Some dst →
       ∃ dst', heap w' !! p = Some dst' ∧
               grad dst'
               = (λ g, Tensor (zeros_like (payload g)) (dev g)) <$> grad dst).
Proof.
  intros Hnd. cbn [concat] in Hnd.
  apply NoDup_app in Hnd as (Hm0 & Hdisj & Hsec).
  set (pairs := concat (zip model_0 <$> secondaries)).
  set (w1 := foldl (λ w' pp, copy_data_step pp.1 pp.2 w') w pairs).
  assert (Hcopy :
    for_ (drop 1 (model_0 :: secondaries))
         (λ m, bind (index (model_0 :: secondaries) 0)
                    (λ model_0', for_ (zip model_0' m)
                                      (λ pp, copy_data pp.1 pp.2))) w
    = (inr (), w1)).
  { cbn [drop]. subst w1 pairs.
    rewrite <- foldl_concat, foldl_fmap.
    apply (for__update (λ m w', foldl (λ w'' pp, copy_data_step pp.1 pp.2 w'')
                                      w' (zip model_0 m))).
    intros m _ w'. unfold index. cbn.
    by apply (for__update (λ pp, copy_data_step pp.1 pp.2)). }
  set (w2 := foldl (λ w' p, zero_grad_step p w') w1 (concat secondaries)).
  assert (Hw2 : w2 = World
            (foldl (λ h' q, alter zero_param q h') (heap w1)
                   (concat secondaries))
            (lib w1)
            (trace w1
             ++ (EvZeroGrad
                   <$> filter (λ p, is_Some (grad_of (heap w1) p))
                              (concat secondaries)))).
  { apply (guarded_alter_loop zero_param EvZeroGrad).
    - apply zero_param_is_Some.
    - apply zero_param_without_grad. }
  assert (Hlk : ∀ p, heap w2 !! p
                     = if decide (p ∈ concat secondaries)
                       then zero_param <$> heap w1 !! p else heap w1 !! p).
  { intros p. rewrite Hw2. cbn [heap]. by apply foldl_alter_lookup. }
  assert (Hkeep : ∀ p, p ∉ pairs.*2 → heap w1 !! p = heap w !! p).
  { intros p Hp. by apply copy_fold_other. }
  exists w2. split_and!.
  - unfold _sync_models. erewrite bind_returns; [|exact Hcopy].
    cbn [drop]. apply for__nested.
  - intros m j p0 p src dst Hm Hp0 Hp Hsrc Hdst.
    assert (Hin : (p0, p) ∈ pairs) by (by eapply pairs_elem).
    assert (Hps : p ∈ concat secondaries).
    { apply (pairs_snd_elem model_0). apply list_elem_of_fmap.
      by exists (p0, p). }
    rewrite Hlk, decide_True by done.
    assert (Hfresh : p0 ∉ pairs.*2).
    { intros Hp0'%pairs_snd_elem. apply (Hdisj p0); [|done].
      by eapply list_elem_of_lookup_2. }
    assert (Hw1 := copy_fold_lookup pairs w p0 p src dst
                     (pairs_snd_NoDup model_0 secondaries Hsec)
                     Hfresh Hin Hsrc Hdst).
    fold w1 in Hw1. by rewrite Hw1.
  - intros p dst Hp Hdst. rewrite Hlk, decide_True by done.
    assert (Hg := copy_fold_grad pairs w p). fold w1 in Hg.
    rewrite Hdst in Hg. destruct (heap w1 !! p) as [dst1|]; [|done].
    cbn in Hg. injection Hg as Hg. exists (zero_param dst1).
    split; [done|]. cbn. by rewrite Hg.
  - intros p Hp. rewrite Hlk, decide_False by (by apply Hdisj).
    apply Hkeep. intros Hp'%pairs_snd_elem. by apply (Hdisj p).
  - rewrite Hw2. cbn [lib]. apply copy_fold_lib.
  - intros p dst Hp Hdst. rewrite Hlk, decide_True by done.
    assert (Hg := copy_fold_grad pairs w p). fold w1 in Hg.
    rewrite Hdst in Hg. destruct (heap w1 !! p) as [dst1|]; [|done].
    cbn in Hg. injection Hg as Hg. exists (zero_param dst1).
    split; [done|]. cbn. by rewrite Hg.
Qed.

End Replicas.

(** *** The definitions at work on two small replicas *)

Example two_replicas_step_trace :
  trace (_backward_and_step_multi_gpu (torch := integer_library) [tt]
           two_replicas [0; 1] 1%Z true two_replicas_world).2
  = [EvBackward true tt; EvUnscale; EvDivGrad 2; EvDivGrad 3;
     EvSynchronize 0; EvSynchronize 1; EvCopyGrad 0;
     EvClipGradNorm; EvScalerStep; EvScalerUpdate].
Proof. vm_compute. reflexivity. Qed.

Example two_replicas_step_gradients :
  let w := (_backward_and_step_multi_gpu (torch := integer_library) [tt]
              two_replicas [0; 1] 1%Z true two_replicas_world).2 in
  grad_of (heap w) <$> [0; 1; 2; 3]
  = [Some (Tensor 5%Z 0); None; Some (Tensor 3%Z 1); Some (Tensor 5%Z 1)].
Proof. vm_compute. reflexivity. Qed.

(** Without a replica there is no [models[0]], and without a device no
    [devices[0]]: the call raises. *)
Example no_replica_raises :
  (_backward_and_step_multi_gpu (torch := integer_library) [] [] [0] 1%Z
     false two_replicas_world).1 = inl IndexError.
Proof. vm_compute. reflexivity. Qed.

Example no_device_raises :
  (_backward_and_step_multi_gpu (torch := integer_library) [tt]
     two_replicas [] 1%Z false two_replicas_world).1 = inl IndexError.
Proof. vm_compute. reflexivity. Qed.

(** A list that names the primary's own objects a second time is not a
    list of replicas: zeroing the gradients of the "secondary" zeroes the
    primary's. *)
Example shared_objects_lose_the_primary_gradient :
  let w := (_sync_models (torch := integer_library) [[0; 1]; [0; 1]]
              two_replicas_world).2 in
  grad_of (heap two_replicas_world) 0 = Some (Tensor 8%Z 0) ∧
  grad_of (heap w) 0 = Some (Tensor 0%Z 0).
Proof. vm_compute. split; reflexivity. Qed.

Lemma two_replicas_NoDup : NoDup (concat two_replicas).
Proof. apply (bool_decide_unpack _). vm_compute. exact I. Defined.

Lemma backward_and_step_multi_gpu_spec_witness :
  NoDup (concat two_replicas) ∧
  ∃ h3 w',
    _backward_and_step_multi_gpu (torch := integer_library) [tt] two_replicas
      [0; 1] 1%Z true two_replicas_world
    = (inr (gradient_norm (torch := integer_library) [0; 1] h3), w') ∧
    payload <$> grad_of h3 0 = Some 5%Z.
Proof.
  split; [exact two_replicas_NoDup|].
  destruct (backward_and_step_multi_gpu_spec (torch := integer_library)
              [tt] [0; 1] [[2; 3]] 0 [1] 1%Z true two_replicas_world
              two_replicas_NoDup)
    as (h2 & h3 & Hdiv & Havg & _ & Hrun & _).
  exists h3. eexists. split; [exact Hrun|].
  assert (Hh2 : ∀ p x, heap two_replicas_world !! p = x →
                h2 !! p
                = if bool_decide (p ∈ [2; 3])
                  then div_param (torch := integer_library) 2%Z <$> x else x).
  { intros p x <-. exact (Hdiv p). }
  assert (Hgs : mapM (grad_of h2) [0; 2]
                = Some [Tensor 8%Z 0; Tensor 3%Z 1]).
  { cbn. unfold grad_of.
    rewrite (Hh2 0 _ eq_refl), (Hh2 2 _ eq_refl). reflexivity. }
  exact (proj2 (proj2 (Havg 0 0 [0; 2] _ eq_refl eq_refl Hgs))).
Defined.

Lemma sync_models_spec_witness :
  NoDup (concat two_replicas) ∧
  ∃ w', _sync_models (torch := integer_library) two_replicas two_replicas_world
        = (inr (), w') ∧
        heap w' !! 2 = Some (Param (Tensor 100%Z 1) (Some (Tensor 0%Z 1))) ∧
        heap w' !! 0 = Some (Param (Tensor 100%Z 0) (Some (Tensor 8%Z 0))).
Proof.
  split; [exact two_replicas_NoDup|].
  destruct (sync_models_spec (torch := integer_library) [0; 1] [[2; 3]]
              two_replicas_world two_replicas_NoDup)
    as (w' & Hrun & Hsec & _ & Hprim & _).
  exists w'. split; [exact Hrun|]. split.
  - refine (Hsec [2; 3] 0 0 2 _ _ _ eq_refl eq_refl eq_refl eq_refl).
    apply list_elem_of_here.
  - exact (Hprim 0 (list_elem_of_here _ _)).
Defined.

End TorchSpec.

Module CheckpointSpec.

Import Torch Checkpoint.

(** Induction on a module with the hypothesis on every child. *)
Lemma module_ind_children {X} (P : module X → Prop) :
  (∀ w b, P (Linear w b)) →
  (∀ w b, P (Conv1d w b)) →
  (∀ ts cs, Forall (λ nc, P nc.2) cs → P (Other ts cs)) →
  ∀ m, P m.
Proof.
  intros HL HC HO. fix IH 1. intros [w b|w b|ts cs]; [apply HL|apply HC|].
  apply HO. induction cs as [|[n c] cs IHcs]; constructor;
    [apply IH|exact IHcs].
Qed.

(** *** The state dict of a module *)

Section Modules.

Context {X : Type}.

Lemma named_tensors_mmap {Y} (f : X → Y) (prefix : string) (m : module X) :
  named_tensors prefix (mmap f m)
  = prod_map id f <$> named_tensors prefix m.
Proof.
  revert prefix. induction m as [w b|w b|ts cs IH] using module_ind_children;
    intros prefix.
  - cbn. by destruct b.
  - cbn. by destruct b.
  - cbn [mmap named_tensors]. rewrite fmap_app. f_equal.
    + rewrite <- !list_fmap_compose. by apply list_fmap_ext; intros i [n x] _.
    + induction IH as [|[n c] cs Hc _ IHcs]; [done|].
      cbn [map concat fst snd] in *. by rewrite fmap_app, Hc, IHcs.
Qed.

Lemma foldl_insert_fmap {Y} (f : X → Y) (l : list (string * X))
    (d : gmap string X) :
  foldl (λ d' kx, <[kx.1 := kx.2]> d') (f <$> d) (prod_map id f <$> l)
  = f <$> foldl (λ d' kx, <[kx.1 := kx.2]> d') d l.
Proof.
  revert d. induction l as [|[k x] l IH]; intros d; [done|].
  cbn [foldl fmap list_fmap prod_map fst snd id]. rewrite <- IH.
  by rewrite fmap_insert.
Qed.

Lemma state_dict_mmap {Y} (f : X → Y) (m : module X) :
  state_dict (mmap f m) = f <$> state_dict m.
Proof.
  unfold state_dict. rewrite named_tensors_mmap, <- foldl_insert_fmap.
  by rewrite fmap_empty.
Qed.





End Modules.

Section Loading.

Context {T R O Sch : Type} {init : Init T R}.

Implicit Types (m : module (tensor T)) (sd : gmap string (tensor T)).

(** *** [apply(init_weights)] *)

Lemma init_tensor_fresh (w : tensor T) (r : R) :
  init_tensor w r = (Tensor (normal_ (payload w) r).1 (dev w),
                     (normal_ (payload w) r).2).
Proof. unfold init_tensor. by destruct (normal_ (payload w) r). Qed.


(** What [init_weights] keeps, it keeps throughout a module. *)
Lemma apply_init_weights_mmap {Y} (f : tensor T → Y) m (r : R) :
  (∀ w r', f (Tensor (normal_ (payload w) r').1 (dev w)) = f w) →
  (∀ b, f (zero_tensor b) = f b) →
  mmap f (apply init_weights m r).1 = mmap f m.
Proof.
  intros Hw Hb. revert r.
  induction m as [w b|w b|ts cs IH] using module_ind_children; intros r.
  - cbn. rewrite init_tensor_fresh. cbn. rewrite Hw. f_equal.
    destruct b; cbn; by rewrite ?Hb.
  - cbn. rewrite init_tensor_fresh. cbn. rewrite Hw. f_equal.
    destruct b; cbn; by rewrite ?Hb.
  - cbn [apply].
    assert (Hcs :
      map (λ nc, (nc.1, mmap f nc.2))
          (map_state (λ nc s0, let '(c', s1) := apply init_weights nc.2 s0
                               in ((nc.1, c'), s1)) cs r).1
      = map (λ nc, (nc.1, mmap f nc.2)) cs).
    { revert r. induction IH as [|[n c] cs Hc _ IHcs]; intros r; [done|].
      cbn [map_state map fst snd] in *. specialize (Hc r).
      destruct (apply init_weights c r) as [c' r1]. specialize (IHcs r1).
      destruct (map_state _ cs r1) as [cs' r2]. cbn in *.
      by rewrite Hc, IHcs. }
    destruct (map_state _ cs r) as [cs' r']. cbn in *. by rewrite Hcs.
Qed.

Lemma apply_init_weights_arch m (r : R) :
  same_arch (apply init_weights m r).1 m.
Proof.
  apply apply_init_weights_mmap.
  - intros w r'. unfold shape_of. cbn. apply normal_shape.
  - intros b. unfold shape_of. cbn. apply constant_zero_shape.
Qed.

Lemma draws_app (ws ws' : list (tensor T)) (r : R) :
  draws (ws ++ ws') r
  = ((draws ws r).1 ++ (draws ws' (draws ws r).2).1,
     (draws ws' (draws ws r).2).2).
Proof.
  revert r. induction ws as [|w ws IH]; intros r.
  { cbn. by destruct (draws ws' r). }
  cbn [app draws]. destruct (normal_ (payload w) r) as [x r1].
  rewrite IH. destruct (draws ws r1) as [xs r2]. cbn.
  by destruct (draws ws' r2).
Qed.

(** The weights of the layers after [apply(init_weights)] are the values
    drawn for them one after the other. *)
Lemma apply_init_weights_draws m (r : R) :
  draws (layer_weights m) r
  = (payload <$> layer_weights (apply init_weights m r).1,
     (apply init_weights m r).2).
Proof.
  revert r. induction m as [w b|w b|ts cs IH] using module_ind_children;
    intros r.
  - cbn. rewrite init_tensor_fresh. cbn.
    by destruct (normal_ (payload w) r).
  - cbn. rewrite init_tensor_fresh. cbn.
    by destruct (normal_ (payload w) r).
  - cbn [apply layer_weights].
    assert (Hcs :
      draws (concat (map (λ nc, layer_weights nc.2) cs)) r
      = (payload
           <$> concat
                 (map (λ nc, layer_weights nc.2)
                      (map_state
                         (λ nc s0, let '(c', s1) := apply init_weights nc.2 s0
                                   in ((nc.1, c'), s1)) cs r).1),
         (map_state (λ nc s0, let '(c', s1) := apply init_weights nc.2 s0
                              in ((nc.1, c'), s1)) cs r).2)).
    { revert r. induction IH as [|[n c] cs Hc _ IHcs]; intros r; [done|].
      cbn [map_state map concat fst snd] in *.
      rewrite draws_app, Hc. cbn [fst snd].
      destruct (apply init_weights c r) as [c' r1]. cbn [fst snd].
      rewrite IHcs.
      destruct (map_state _ cs r1) as [cs' r2]. cbn.
      by rewrite fmap_app. }
    destruct (map_state _ cs r) as [cs' r']. exact Hcs.
Qed.

(** *** [load_state_dict] *)







Context (load_checkpoint :
  string → module (tensor T) → O → Sch → device →
  exn + (Z * Z * module (tensor T) * O * Sch)).


End Loading.

(** *** The definitions at work on a small model *)

Example resume_with_missing_file_initializes :
  load_or_initialize_models (init := counting_init) constant_checkpoint
    resume_config (small_model 0 10, Some (small_model 1 20), None, None)
    tt tt 0 ∅ 0
  = (inr (Loaded
            (Other [("scale", Tensor 10%Z 0)]
                   [("fc", Linear (Tensor 0%Z 0) (Some (Tensor 0%Z 0)));
                    ("conv", Conv1d (Tensor 1%Z 0) None)],
             Some (Other [("scale", Tensor 10%Z 1)]
                         [("fc", Linear (Tensor 0%Z 1) (Some (Tensor 0%Z 1)));
                          ("conv", Conv1d (Tensor 1%Z 1) None)]),
             None, None)
            tt tt 0 0), 2).
Proof. vm_compute. reflexivity. Qed.

(** A secondary of another architecture makes the strict
    [load_state_dict] raise; so does one with the same layers under other
    names. *)
Example other_architecture_raises :
  (load_or_initialize_models (init := counting_init) constant_checkpoint
     ∅ (small_model 0 10, Some (Linear (Tensor 1%Z 1) None), None, None)
     tt tt 0 ∅ 0).1 = inl RuntimeError.
Proof. vm_compute. reflexivity. Qed.

Example other_names_raise :
  (load_or_initialize_models (init := counting_init) constant_checkpoint
     ∅ (small_model 0 10,
        Some (Other [("gain", Tensor 20%Z 1)]
                    [("fc", Linear (Tensor 21%Z 1) (Some (Tensor 22%Z 1)));
                     ("conv", Conv1d (Tensor 23%Z 1) None)]),
        None, None)
     tt tt 0 ∅ 0).1 = inl RuntimeError.
Proof. vm_compute. reflexivity. Qed.


End CheckpointSpec.

(** * Further properties *)

Module SaveCsvFacts.

Import SaveCsv SaveCsvFrames SaveCsvSpec.
Local Open Scope string_scope.

Section Saving.

Context {A : Type}.
Implicit Types (generated : ndarray A) (fs : gmap string (csv A)).


(** X2. Exporting a 68-column matrix without the emotions is exporting
    its first 61 columns: the two calls return the same and leave the same
    file system. *)
Theorem save_without_emotions_is_save_of_slice generated output_path fs :
  shape1 generated = 68 →
  save_generated_data_as_csv generated output_path false fs
  = save_generated_data_as_csv (slice_columns 61 generated) output_path
      false fs.
Proof.
  intros Hc. unfold save_generated_data_as_csv.
  destruct generated as [n c rs]; cbn [shape1 shape0 rows] in *. subst c.
  unfold slice_columns; cbn [shape1 shape0 rows].
  assert (Hrs : take 61 <$> (take 61 <$> rs) = take 61 <$> rs).
  { rewrite <- list_fmap_compose. apply list_fmap_ext. intros i r _. cbn.
    by rewrite take_take. }
  by rewrite Hrs.
Qed.

(** X3. When nothing is cut (61 columns without the emotions, 68 columns
    with them), every record of the written file is its timecode, the
    column count of the input, and then the whole input row, value for
    value and in order. *)
Theorem save_keeps_whole_rows generated output_path inc fs :
  ndarray_wf generated →
  (shape1 generated = 61 ∧ inc = false) ∨ (shape1 generated = 68 ∧ inc = true) →
  ∃ f, save_generated_data_as_csv generated output_path inc fs
       = (inr (), <[output_path := f]> fs) ∧
       ∀ i r, rows generated !! i = Some r →
         records f !! i
         = Some (Text (timecode i) :: Count (shape1 generated)
                   :: (Value <$> r)).
Proof.
  intros [Hlen Hw] Hcase. exists (written generated inc). split.
  { apply save_accepted. destruct Hcase as [[? ?]|[? ?]]; auto. }
  intros i r Hr. destruct Hcase as [[Hc ->]|[Hc ->]];
    unfold written; cbn [records]; rewrite Hc.
  - assert (Hfull : take 61 r = r).
    { apply take_ge. rewrite (Forall_lookup_1 _ _ _ _ Hw Hr). lia. }
    rewrite <- Hfull.
    apply (stacked_lookup (61 `min` 61)); [by rewrite length_fmap|].
    by rewrite list_lookup_fmap, Hr.
  - by apply (stacked_lookup 68).
Qed.

(** X4. No written header names a column twice. *)
Theorem header_names_distinct generated output_path inc fs f :
  (save_generated_data_as_csv generated output_path inc fs).1 = inr () →
  (save_generated_data_as_csv generated output_path inc fs).2
    !! output_path = Some f →
  NoDup (header f).
Proof.
  intros Hret Hf. rewrite (save_returns_written _ _ _ _ _ Hret Hf).
  destruct inc; cbn [written header];
    apply (bool_decide_unpack _); vm_compute; exact I.
Qed.

(** X5. The export of the first [k] rows of a matrix is the first [k]
    records of the export of the matrix, under the same header: a frame's
    record depends on its index and its row only. *)
Theorem save_of_first_rows generated output_path inc fs k :
  ndarray_wf generated →
  shape1 generated = 68 ∨ (shape1 generated = 61 ∧ inc = false) →
  ∃ f f',
    save_generated_data_as_csv generated output_path inc fs
    = (inr (), <[output_path := f]> fs) ∧
    save_generated_data_as_csv (take_rows k generated) output_path inc fs
    = (inr (), <[output_path := f']> fs) ∧
    header f' = header f ∧ records f' = take k (records f).
Proof.
  intros [Hlen Hw] Hshape.
  exists (written generated inc), (written (take_rows k generated) inc).
  split; [by apply save_accepted|]. split; [by apply save_accepted|].
  split; [by destruct inc|].
  assert (Hgen : ∀ c (rs : list (list A)) n,
            length rs = n →
            stacked c (take k rs) (k `min` n) = take k (stacked c rs n)).
  { intros c rs n Hn.
    assert (Hn' : length (take k rs) = k `min` n)
      by (by rewrite length_take, Hn).
    apply list_eq. intros i.
    destruct (decide (i < k)) as [Hik|Hik].
    - rewrite lookup_take_lt by done.
      destruct (rs !! i) as [r|] eqn:Hr.
      + rewrite (stacked_lookup c rs n i r Hn Hr).
        apply stacked_lookup; [done|]. by rewrite lookup_take_lt.
      + apply lookup_ge_None in Hr.
        rewrite (proj2 (lookup_ge_None _ _)),
                (proj2 (lookup_ge_None _ _)); [done| |].
        * rewrite stacked_length by done. lia.
        * rewrite stacked_length by done. lia.
    - rewrite lookup_take_ge by lia.
      apply lookup_ge_None. rewrite stacked_length by done. lia. }
  destruct inc; unfold written, take_rows; cbn [records rows shape0 shape1].
  - by apply Hgen.
  - rewrite fmap_take. apply Hgen. by rewrite length_fmap.
Qed.

End Saving.

Lemma save_without_emotions_is_save_of_slice_witness :
  shape1 (sample 2 68) = 68 ∧
  save_generated_data_as_csv (sample 2 68) "out.csv" false ∅
  = save_generated_data_as_csv (slice_columns 61 (sample 2 68)) "out.csv"
      false ∅.
Proof.
  split; [reflexivity|].
  exact (save_without_emotions_is_save_of_slice (sample 2 68) "out.csv" ∅
           eq_refl).
Defined.

Lemma save_keeps_whole_rows_witness :
  ndarray_wf (sample 2 68) ∧
  ∃ f, save_generated_data_as_csv (sample 2 68) "out.csv" true ∅
       = (inr (), <[("out.csv" : string) := f]> ∅) ∧
       records f !! 1
       = Some (Text (timecode 1) :: Count 68 :: (Value <$> seq 0 68)).
Proof.
  assert (Hwf : ndarray_wf (sample 2 68))
    by (split; [reflexivity | repeat constructor]).
  split; [exact Hwf|].
  destruct (save_keeps_whole_rows (sample 2 68) "out.csv" true ∅ Hwf
              (or_intror (conj eq_refl eq_refl))) as (f & Hsave & Hrows).
  exists f. split; [exact Hsave|]. exact (Hrows 1 (seq 0 68) eq_refl).
Defined.

Lemma header_names_distinct_witness :
  (save_generated_data_as_csv (sample 2 68) "out.csv" true ∅).1 = inr () ∧
  NoDup (header (written (sample 2 68) true)).
Proof.
  assert (Hret : (save_generated_data_as_csv (sample 2 68) "out.csv"
                    true ∅).1 = inr ()) by reflexivity.
  assert (Hf : (save_generated_data_as_csv (sample 2 68) "out.csv"
                  true ∅).2 !! "out.csv"
               = Some (written (sample 2 68) true)) by (vm_compute; reflexivity).
  split; [exact Hret|].
  exact (header_names_distinct (sample 2 68) "out.csv" true ∅ _ Hret Hf).
Defined.

Lemma save_of_first_rows_witness :
  ndarray_wf (sample 3 61) ∧
  ∃ f f',
    save_generated_data_as_csv (sample 3 61) "out.csv" false ∅
    = (inr (), <[("out.csv" : string) := f]> ∅) ∧
    save_generated_data_as_csv (take_rows 2 (sample 3 61)) "out.csv" false ∅
    = (inr (), <[("out.csv" : string) := f']> ∅) ∧
    records f' = take 2 (records f).
Proof.
  assert (Hwf : ndarray_wf (sample 3 61))
    by (split; [reflexivity | repeat constructor]).
  split; [exact Hwf|].
  destruct (save_of_first_rows (sample 3 61) "out.csv" false ∅ 2 Hwf
              (or_intror (conj eq_refl eq_refl)))
    as (f & f' & H1 & H2 & _ & H3).
  exists f, f'. split; [exact H1|]. split; [exact H2|exact H3].
Defined.

End SaveCsvFacts.

Module TimecodeFormatFacts.

Import SaveCsv SaveCsvFrames.
Local Open Scope string_scope.

Lemma bounded_by_enumeration (P : Z → Prop) `{∀ z, Decision (P z)} (n : nat) :
  Forall (λ k, P (Z.of_nat k)) (seq 0 n) →
  ∀ z, (0 ≤ z < Z.of_nat n)%Z → P z.
Proof.
  intros Hall z Hz. rewrite Forall_forall in Hall.
  rewrite <- (Z2Nat.id z) by lia. apply Hall.
  apply elem_of_seq. lia.
Qed.

Lemma zfill_two_digits z : (0 ≤ z < 100)%Z → Fmt.zfill 2 z = two_digits z.
Proof.
  apply (bounded_by_enumeration (λ z, Fmt.zfill 2 z = two_digits z) 100).
  apply (bool_decide_unpack _). vm_compute. exact I.
Qed.

Lemma zfill_three_digits z :
  (0 ≤ z < 1000)%Z → Fmt.zfill 3 z = three_digits z.
Proof.
  apply (bounded_by_enumeration (λ z, Fmt.zfill 3 z = three_digits z) 1000).
  apply (bool_decide_unpack _). vm_compute. exact I.
Qed.

Lemma digit_inj (a b : N) :
  (a < 10)%N → (b < 10)%N → Fmt.digit a = Fmt.digit b → a = b.
Proof.
  unfold Fmt.digit. intros Ha Hb Hab.
  apply (f_equal N_of_ascii) in Hab.
  rewrite !N_ascii_embedding in Hab by lia. lia.
Qed.

Local Ltac digits := Z.div_mod_to_equations; lia.

Lemma digit_of_Z_inj (a b : Z) :
  (0 ≤ a < 10)%Z ∧ (0 ≤ b < 10)%Z →
  Fmt.digit (Z.to_N a) = Fmt.digit (Z.to_N b) → a = b.
Proof.
  intros [Ha Hb] Hab. apply digit_inj in Hab.
  - apply Z2N.inj; lia.
  - change 10%N with (Z.to_N 10). apply Z2N.inj_lt; lia.
  - change 10%N with (Z.to_N 10). apply Z2N.inj_lt; lia.
Qed.

Lemma format_timecode_digits t :
  in_range t →
  format_timecode t
  = two_digits (tc_hours t) ++ ":" ++ two_digits (tc_minutes t) ++ ":" ++
    two_digits (tc_seconds t) ++ ":" ++ two_digits (tc_frame t) ++ "." ++
    three_digits (tc_millis t).
Proof.
  intros (Hh & Hm & Hs & Hf & Hms). unfold format_timecode.
  by rewrite !zfill_two_digits, zfill_three_digits.
Qed.

(** X6. When the hours, minutes, seconds and frame fields are below 100
    and the milliseconds below 1000, the timecode is fifteen characters
    long, with colons after the hours, the minutes and the seconds and a
    full stop after the frame field. *)
Theorem format_timecode_shape t :
  in_range t →
  String.length (format_timecode t) = 15 ∧
  String.get 2 (format_timecode t) = Some ":"%char ∧
  String.get 5 (format_timecode t) = Some ":"%char ∧
  String.get 8 (format_timecode t) = Some ":"%char ∧
  String.get 11 (format_timecode t) = Some "."%char.
Proof.
  intros Ht. rewrite (format_timecode_digits t Ht). by split_and!.
Qed.

Lemma format_timecode_in_range_inj t t' :
  in_range t → in_range t' →
  format_timecode t = format_timecode t' → t = t'.
Proof.
  intros Ht Ht'.
  rewrite (format_timecode_digits t Ht), (format_timecode_digits t' Ht').
  destruct t as [h m s f ms], t' as [h' m' s' f' ms'].
  destruct Ht as (Hh & Hm & Hs & Hf & Hms).
  destruct Ht' as (Hh' & Hm' & Hs' & Hf' & Hms'). cbn in *.
  unfold two_digits, three_digits. cbn [append].
  intros Heq. injection Heq as E1 E2 E3 E4 E5 E6 E7 E8 E9 E10 E11.
  apply digit_of_Z_inj in E1; [|digits]. apply digit_of_Z_inj in E2; [|digits].
  apply digit_of_Z_inj in E3; [|digits]. apply digit_of_Z_inj in E4; [|digits].
  apply digit_of_Z_inj in E5; [|digits]. apply digit_of_Z_inj in E6; [|digits].
  apply digit_of_Z_inj in E7; [|digits]. apply digit_of_Z_inj in E8; [|digits].
  apply digit_of_Z_inj in E9; [|digits]. apply digit_of_Z_inj in E10; [|digits].
  apply digit_of_Z_inj in E11; [|digits].
  f_equal; digits.
Qed.

(** X7. Within those bounds the timecode determines its fields: two
    different readings of the clock are never printed alike. *)
Theorem format_timecode_inj t t' :
  in_range t → in_range t' →
  format_timecode t = format_timecode t' → t = t'.
Proof. apply format_timecode_in_range_inj. Qed.

Lemma format_timecode_shape_witness :
  in_range (TC 1 2 3 4 5) ∧
  String.length (format_timecode (TC 1 2 3 4 5)) = 15.
Proof.
  assert (Hr : in_range (TC 1 2 3 4 5)) by (unfold in_range; cbn; lia).
  split; [exact Hr|].
  exact (proj1 (format_timecode_shape (TC 1 2 3 4 5) Hr)).
Defined.

Lemma format_timecode_inj_witness :
  in_range (TC 1 2 3 4 5) ∧
  format_timecode (TC 1 2 3 4 5) = format_timecode (TC 1 2 3 4 5) ∧
  TC 1 2 3 4 5 = TC 1 2 3 4 5.
Proof.
  assert (Hr : in_range (TC 1 2 3 4 5)) by (unfold in_range; cbn; lia).
  split; [exact Hr|]. split; [reflexivity|].
  exact (format_timecode_inj (TC 1 2 3 4 5) (TC 1 2 3 4 5) Hr Hr eq_refl).
Defined.

(** *** The timecodes of the first minute *)

Lemma first_minute_well_stamped :
  forallb well_stamped (seq 0 3600) = true.
Proof. vm_compute. reflexivity. Qed.

Lemma well_stamped_first_minute (i : nat) :
  (i < 3600)%nat → well_stamped i = true.
Proof.
  intros Hi. pose proof first_minute_well_stamped as Hall.
  rewrite forallb_forall in Hall. apply Hall, in_seq. lia.
Qed.

Lemma instants_increase (i j : nat) :
  (i < j)%nat → (j ≤ 3600)%nat →
  (instant (timecode_fields_of i) < instant (timecode_fields_of j))%Z.
Proof.
  intros Hij. induction Hij as [|j Hij IH]; intros Hj.
  - pose proof (well_stamped_first_minute i Hj) as Hw.
    unfold well_stamped in Hw. cbn zeta in Hw.
    apply andb_true_iff in Hw as [_ Hw]. by apply bool_decide_eq_true in Hw.
  - pose proof (well_stamped_first_minute j Hj) as Hw.
    unfold well_stamped in Hw. cbn zeta in Hw.
    apply andb_true_iff in Hw as [_ Hw]. apply bool_decide_eq_true in Hw.
    specialize (IH ltac:(lia)). lia.
Qed.

(** X23. Through the first minute of an export (3600 frames) every frame
    has a timecode of its own, although the frame field repeats: the time
    a timecode shows is the exact time of its frame in milliseconds or one
    millisecond less, it is earlier than the time every later frame
    shows, and the timecode has the fifteen-character shape; so it is
    for the earlier and for the later of any two frames. *)
Theorem first_minute_timecodes (i j : nat) :
  (i < j)%nat → (j < 3600)%nat →
  timecode i ≠ timecode j ∧
  (instant (timecode_fields_of i) < instant (timecode_fields_of j))%Z ∧
  (1000 * Z.of_nat i / 60 - 1 ≤ instant (timecode_fields_of i)
   ≤ 1000 * Z.of_nat i / 60)%Z ∧
  String.length (timecode i) = 15 ∧
  (1000 * Z.of_nat j / 60 - 1 ≤ instant (timecode_fields_of j)
   ≤ 1000 * Z.of_nat j / 60)%Z ∧
  String.length (timecode j) = 15.
Proof.
  intros Hij Hj.
  pose proof (instants_increase i j Hij ltac:(lia)) as Hlt.
  pose proof (well_stamped_first_minute i ltac:(lia)) as Hi.
  pose proof (well_stamped_first_minute j ltac:(lia)) as Hj'.
  unfold well_stamped in Hi, Hj'. cbn zeta in Hi, Hj'.
  apply andb_true_iff in Hi as [Hi _], Hj' as [Hj' _].
  apply andb_true_iff in Hi as [Hri Hei], Hj' as [Hrj Hej].
  apply bool_decide_eq_true in Hri, Hei, Hrj, Hej.
  split; [|split; [exact Hlt|split; [exact Hei|split; [|split;
    [exact Hej|]]]]].
  - unfold timecode.
    intros Heq%format_timecode_in_range_inj; [|done..].
    rewrite Heq in Hlt. lia.
  - unfold timecode. by rewrite (format_timecode_digits _ Hri).
  - unfold timecode. by rewrite (format_timecode_digits _ Hrj).
Qed.

Lemma first_minute_timecodes_witness :
  (4 < 5)%nat ∧ (5 < 3600)%nat ∧ timecode 4 ≠ timecode 5.
Proof.
  split; [lia|]. split; [lia|].
  exact (proj1 (first_minute_timecodes 4 5 ltac:(lia) ltac:(lia))).
Defined.

End TimecodeFormatFacts.

Module DecimalFacts.

Import Decimal.
Local Open Scope N_scope.

Lemma digit_value_digit d : d < 10 → digit_value (Fmt.digit d) = d.
Proof.
  intros Hd. unfold digit_value, Fmt.digit.
  rewrite N_ascii_embedding by lia. lia.
Qed.

(** The digits written in front of [acc] read back as the number. *)
Lemma digits_go_read (fuel : nat) n acc a :
  n < 2 ^ N.of_nat fuel →
  ∃ k, read_from a (Fmt.digits_go fuel n acc) = read_from (a * 10 ^ k + n) acc.
Proof.
  revert n acc a. induction fuel as [|fuel IH]; intros n acc a Hn.
  { exists 0. cbn in *. f_equal. lia. }
  cbn [Fmt.digits_go]. destruct (N.ltb_spec n 10) as [Hlt|Hge].
  - exists 1. cbn [read_from]. rewrite digit_value_digit.
    + f_equal. rewrite N.mod_small by done. lia.
    + by apply N.mod_upper_bound.
  - assert (Hdiv : n / 10 < 2 ^ N.of_nat fuel).
    { rewrite Nat2N.inj_succ, N.pow_succ_r' in Hn.
      apply N.Div0.div_lt_upper_bound. lia. }
    destruct (IH (n / 10) (String (Fmt.digit (n mod 10)) acc) a Hdiv)
      as [k Hk].
    exists (N.succ k). rewrite Hk. cbn [read_from].
    rewrite digit_value_digit by (by apply N.mod_upper_bound).
    f_equal. rewrite N.pow_succ_r'.
    pose proof (N.div_mod n 10). lia.
Qed.

Lemma pos_below_pow2_size (p : positive) :
  N.pos p < 2 ^ N.of_nat (Pos.size_nat p).
Proof.
  induction p as [p IH|p IH|]; cbn [Pos.size_nat].
  - rewrite Nat2N.inj_succ, N.pow_succ_r'. lia.
  - rewrite Nat2N.inj_succ, N.pow_succ_r'. lia.
  - cbn. lia.
Qed.

(** Round trip: the numeral of a number reads back as the number. *)
Lemma read_str_N n : read_N (Fmt.str_N n) = n.
Proof.
  unfold read_N, Fmt.str_N.
  destruct (digits_go_read (S (N.size_nat n)) n EmptyString 0) as [k Hk].
  - rewrite Nat2N.inj_succ, N.pow_succ_r'. destruct n as [|p]; [cbn; lia|].
    pose proof (pos_below_pow2_size p). cbn [N.size_nat]. lia.
  - rewrite Hk. cbn. lia.
Qed.

Lemma str_N_inj n m : Fmt.str_N n = Fmt.str_N m → n = m.
Proof.
  intros H. apply (f_equal read_N) in H. by rewrite !read_str_N in H.
Qed.

End DecimalFacts.

Module PlotsSpec.

Import Plots.
Local Open Scope string_scope.

Lemma append_inv_l (s a b : string) : s ++ a = s ++ b → a = b.
Proof. induction s as [|c s IH]; cbn; [done|]. intros [= H]. by apply IH. Qed.

Lemma length_append (a b : string) :
  String.length (a ++ b) = String.length a + String.length b.
Proof. induction a as [|c a IH]; [done|]. simpl. by rewrite IH. Qed.

Lemma append_inv_r (a b t : string) : a ++ t = b ++ t → a = b.
Proof.
  intros H.
  assert (Hlen : String.length a = String.length b).
  { apply (f_equal String.length) in H. rewrite !length_append in H. lia. }
  revert b H Hlen. induction a as [|c a IH]; intros [|c' b] H Hlen;
    try discriminate; [done|].
  cbn in *. injection H as -> H. f_equal. apply IH; [done|lia].
Qed.

(** Joining a directory with two relative names gives one path only for
    one name. *)
Lemma join_inj (d a b : string) (c c' : ascii) :
  c ≠ "/"%char → c' ≠ "/"%char →
  join d (String c a) = join d (String c' b) → String c a = String c' b.
Proof.
  intros Hc Hc'. unfold join.
  assert (Hrel : ∀ (x : ascii) (s : string), x ≠ "/"%char →
            match String x s with
            | String "/" _ => String x s
            | _ => match last_char d with
                   | None | Some "/"%char => d ++ String x s
                   | Some _ => d ++ "/" ++ String x s
                   end
            end
            = match last_char d with
              | None | Some "/"%char => d ++ String x s
              | Some _ => d ++ "/" ++ String x s
              end).
  { intros x s Hx.
    destruct x as [[] [] [] [] [] [] [] []]; try done. }
  rewrite !Hrel by done.
  destruct (last_char d) as [l|]; [|apply append_inv_l].
  destruct (decide (l = "/"%char)) as [->|Hl]; [apply append_inv_l|].
  assert (Hsep : ∀ (X Y : string),
            match l with
            | "/"%char => X
            | _ => Y
            end = Y).
  { intros X Y. destruct l as [[] [] [] [] [] [] [] []]; try done. }
  rewrite !Hsep. by intros H%append_inv_l%append_inv_l.
Qed.

Lemma str_inj (n m : nat) : str n = str m → n = m.
Proof. unfold str. intros H%DecimalFacts.str_N_inj. lia. Qed.

Lemma gradient_norm_plot_path_inj (save_dir : string) (epoch epoch' : nat) :
  gradient_norm_plot_path save_dir epoch
  = gradient_norm_plot_path save_dir epoch' → epoch = epoch'.
Proof.
  unfold gradient_norm_plot_path. cbn [append].
  intros H%join_inj; [|done..]. injection H as H.
  apply append_inv_r, str_inj in H. lia.
Qed.

Lemma loss_plot_path_inj (save_dir : string) (epoch epoch' : nat) :
  loss_plot_path save_dir epoch = loss_plot_path save_dir epoch'
  → epoch = epoch'.
Proof.
  unfold loss_plot_path. cbn [append].
  intros H%join_inj; [|done..]. injection H as H.
  apply append_inv_r, str_inj in H. lia.
Qed.

Lemma plot_paths_of_two_kinds (save_dir : string) (epoch epoch' : nat) :
  gradient_norm_plot_path save_dir epoch ≠ loss_plot_path save_dir epoch'.
Proof.
  unfold gradient_norm_plot_path, loss_plot_path. cbn [append].
  intros H%join_inj; [|done..]. discriminate.
Qed.

(** X8. In one directory a plot's path tells its kind and its epoch:
    the gradient-norm plots of two epochs, and the loss plots of two
    epochs, have one path only when the epochs are one, and a
    gradient-norm plot never shares its path with a loss plot. *)
Theorem plot_paths_identify_plots (save_dir : string) (epoch epoch' : nat) :
  (gradient_norm_plot_path save_dir epoch
   = gradient_norm_plot_path save_dir epoch' → epoch = epoch') ∧
  (loss_plot_path save_dir epoch = loss_plot_path save_dir epoch'
   → epoch = epoch') ∧
  gradient_norm_plot_path save_dir epoch ≠ loss_plot_path save_dir epoch'.
Proof.
  split_and!.
  - apply gradient_norm_plot_path_inj.
  - apply loss_plot_path_inj.
  - apply plot_paths_of_two_kinds.
Qed.

Example gradient_norm_plot_path_of_first_epoch :
  gradient_norm_plot_path "dataset/plots" 0
  = "dataset/plots/gradient_norms_epoch_1.png" ∧
  loss_plot_path "dataset/plots/" 9 = "dataset/plots/loss_epoch_10.png".
Proof. by vm_compute. Qed.

End PlotsSpec.

Module PrepareSpec.

Import Prepare.

Lemma padded_devices_lookup (device_count k : nat) :
  k < 4 →
  pad_to 4 ((λ i, Some (cuda i)) <$> seq 0 (device_count `min` 4)) !! k
  = Some (if decide (k < device_count) then Some (cuda k) else None).
Proof.
  intros Hk. unfold pad_to. destruct (decide (k < device_count)) as [Hlt|Hge].
  - rewrite lookup_app_l by (rewrite length_fmap, length_seq; lia).
    rewrite list_lookup_fmap, lookup_seq_lt by lia. done.
  - rewrite lookup_app_r by (rewrite length_fmap, length_seq; lia).
    rewrite length_fmap, length_seq. apply lookup_replicate_2. lia.
Qed.

Section Building.

Context {Mdl : Type} (build_model : config → torch_device → Mdl).

(** X10. The device list always has four entries: [cuda:i] at every index
    below the number of devices, and [None] from there on. *)
Theorem prepared_devices (config : config) (device_count : nat) :
  let p := prepare_devices_and_models build_model config device_count in
  length (devices p) = 4 ∧
  ∀ i, i < 4 →
    devices p !! i
    = Some (if decide (i < device_count) then Some (cuda i) else None).
Proof.
  cbn zeta. unfold prepare_devices_and_models. cbn [devices]. split.
  - unfold pad_to.
    rewrite length_app, length_replicate, !length_fmap, !length_seq. lia.
  - apply padded_devices_lookup.
Qed.

Lemma prepared_models_built (config : config) (device_count : nat) :
  let p := prepare_devices_and_models build_model config device_count in
  built p
  = (λ k, build_model config
            (if decide (device_count = 0) then cpu else cuda k))
    <$> seq 0 (replica_count config device_count) ∧
  (is_Some (models p).1.2 → is_Some (models p).1.1.2) ∧
  (is_Some (models p).2 → is_Some (models p).1.2).
Proof.
  cbn zeta. unfold built, replicas, prepare_devices_and_models, replica_count.
  cbn [models fst snd].
  rewrite !padded_devices_lookup by lia. cbn [mjoin option_join default].
  destruct (default false (use_multi_gpu config)); cbn [andb].
  2:{ cbn. split_and!; try by intros [? [=]].
      by destruct (decide (0 < device_count)), (decide (device_count = 0));
        try lia. }
  destruct (bool_decide_reflect (1 < device_count)) as [Hdc|Hdc];
    cbn [andb].
  2:{ cbn. split_and!; try by intros [? [=]].
      by destruct (decide (0 < device_count)), (decide (device_count = 0));
        try lia. }
  rewrite (decide_True (P := 0 < device_count)) by lia.
  destruct (decide (device_count = 0)) as [?|_]; [lia|].
  rewrite (decide_True (P := 1 < device_count)) by lia.
  set (desired := default 1%Z (num_gpus config)).
  cbn [default fmap option_fmap option_map].
  clearbody desired.
  set (n := 1 `max` (Z.to_nat desired `min` (device_count `min` 4))).
  assert (Hn : n = 1 `max` (Z.to_nat desired `min` (device_count `min` 4)))
    by done.
  clearbody n.
  destruct (bool_decide_reflect (Z.of_nat (1 + 1) ≤ desired)%Z) as [H1|H1];
    destruct (bool_decide_reflect (Z.of_nat (2 + 1) ≤ desired)%Z) as [H2|H2];
    destruct (bool_decide_reflect (Z.of_nat (3 + 1) ≤ desired)%Z) as [H3|H3];
    try lia;
    destruct (decide (2 < device_count)) as [D2|D2];
    destruct (decide (3 < device_count)) as [D3|D3]; try lia;
    (split_and!; [|try (by intros [? [=]]); by eauto..]);
    first [ assert (n = 1) as -> by lia
          | assert (n = 2) as -> by lia
          | assert (n = 3) as -> by lia
          | assert (n = 4) as -> by lia ];
    reflexivity.
Qed.



(** X11. The replicas that are built are the first [replica_count] of the
    four: as many as [num_gpus] asks for (one by default), at most one for
    each of the first four devices, and one only unless [use_multi_gpu]
    is set and there are two devices or more.  Replica [k] is built on
    [cuda:k], the primary on the CPU when there is no device at all, and
    no replica is missing before one that is present. *)
Theorem prepared_models (config : config) (device_count : nat) :
  let p := prepare_devices_and_models build_model config device_count in
  built p
  = (λ k, build_model config
            (if decide (device_count = 0) then cpu else cuda k))
    <$> seq 0 (replica_count config device_count) ∧
  (is_Some (models p).1.2 → is_Some (models p).1.1.2) ∧
  (is_Some (models p).2 → is_Some (models p).1.2).
Proof. apply prepared_models_built. Qed.

End Building.

End PrepareSpec.

Module CheckpointFacts.

Import Torch Checkpoint ModelState CheckpointSpec.

Section Loading.

Context {T R O Sch : Type} {init : Init T R}.

Implicit Types (m : module (tensor T)) (sd : gmap string (tensor T)).

(** *** [apply(init_weights)] *)

Lemma apply_init_weights_devices m (r : R) :
  dev <$> state_dict (apply init_weights m r).1 = dev <$> state_dict m.
Proof.
  rewrite <- !state_dict_mmap. f_equal.
  by apply apply_init_weights_mmap.
Qed.

(** X12. Initialization changes values only: the initialized model has
    the architecture of the model it was made from, and every tensor of
    its state is on the device it was on. *)
Theorem init_weights_keeps_architecture_and_devices m (r : R) :
  let m' := (apply init_weights m r).1 in
  same_arch m' m ∧
  dev <$> state_dict m' = dev <$> state_dict m ∧
  dom (state_dict m') = dom (state_dict m).
Proof.
  cbn zeta. pose proof (apply_init_weights_devices m r) as Hdev.
  split_and!.
  - apply apply_init_weights_arch.
  - exact Hdev.
  - apply (f_equal dom) in Hdev. by rewrite !dom_fmap_L in Hdev.
Qed.

(** X13. [apply(init_weights)] draws from the generator once for the
    weight of each [Linear] and [Conv1d] layer, in the order of the
    layers, and for nothing else: biases and the tensors of other modules
    leave the generator alone. *)
Theorem init_weights_draws m (r : R) :
  (apply init_weights m r).2
  = foldl (λ r' w, (normal_ (payload w) r').2) r (layer_weights m).
Proof.
  pose proof (f_equal snd (apply_init_weights_draws m r)) as Hd.
  cbn [snd] in Hd. rewrite <- Hd. clear Hd.
  generalize (layer_weights m). clear m. intros ws. revert r.
  induction ws as [|w ws IH]; intros r; [done|].
  cbn [draws foldl]. rewrite <- IH.
  destruct (normal_ (payload w) r) as [x r1]. cbn.
  by destruct (draws ws r1).
Qed.

(** *** What a successful [load_state_dict] has done *)



Context (load_checkpoint :
  string → module (tensor T) → O → Sch → device →
  exn + (Z * Z * module (tensor T) * O * Sch)).


End Loading.


End CheckpointFacts.

Module PreparedModels.

Import Torch Checkpoint ModelState Prepare CheckpointSpec PrepareSpec.

Section Loading.

Context {T R O Sch : Type} {init : Init T R}.

Context (load_checkpoint :
  string → module (tensor T) → O → Sch → device →
  exn + (Z * Z * module (tensor T) * O * Sch)).

Context (build_model : config → torch_device → module (tensor T)).



End Loading.


End PreparedModels.

Module TorchFacts.

Import Torch Steps TorchSpec.

Section Replicas.

Context {T F Loss L : Type} {torch : Library T F Loss L}.

Implicit Types (w : world T Loss L) (h : gmap loc (parameter T)).
Implicit Types (p q : loc) (ps model m : list loc).
Implicit Types (models secondaries : list (list loc)).

(** *** The gradient norm *)

Lemma gradient_norm_ext model h h' :
  (∀ p, p ∈ model → payload <$> grad_of h p = payload <$> grad_of h' p) →
  gradient_norm model h = gradient_norm model h'.
Proof.
  unfold gradient_norm. intros Hp. f_equal. generalize (float_zero (F := F)).
  induction model as [|p model IH]; intros a; [done|].
  cbn [foldl]. rewrite IH by (intros q Hq; apply Hp; by right).
  f_equal. specialize (Hp p (list_elem_of_here _ _)).
  destruct (grad_of h p) as [g|], (grad_of h' p) as [g'|]; try done.
  cbn in Hp. by injection Hp as ->.
Qed.

Lemma gradient_norm_filter model h :
  gradient_norm (filter (λ p, is_Some (grad_of h p)) model) h
  = gradient_norm model h.
Proof.
  unfold gradient_norm. f_equal. generalize (float_zero (F := F)).
  induction model as [|p model IH]; intros a; [done|].
  destruct (grad_of h p) as [g|] eqn:Hg.
  - rewrite filter_cons_True by (by rewrite Hg). cbn [foldl].
    by rewrite Hg, IH.
  - rewrite filter_cons_False by (rewrite Hg; by intros [? ?]).
    cbn [foldl]. by rewrite Hg, IH.
Qed.

(** X16. The gradient norm of a model is a function of the values of the
    gradients its parameters have: the parameters' data, the devices and
    every parameter without a gradient play no part in it. *)
Theorem gradient_norm_of_gradients model h h' :
  (∀ p, p ∈ model → payload <$> grad_of h p = payload <$> grad_of h' p) →
  gradient_norm model h = gradient_norm model h' ∧
  gradient_norm (filter (λ p, is_Some (grad_of h p)) model) h
  = gradient_norm model h.
Proof.
  intros Hp. split; [by apply gradient_norm_ext|apply gradient_norm_filter].
Qed.


(** *** The multi-GPU step at the edges of its arguments *)

Lemma before_averaging_run (use_amp : bool) (losses : list Loss) models w :
  (if use_amp return M T Loss L unit
   then
     bind (for_ losses (call_backward true)) (λ _,
     bind call_unscale_ (λ _,
     bind (read (λ w', get_scale (lib w'))) (λ scale,
     for_ (drop 1 models) (λ model, for_ model (div_grad scale)))))
   else for_ losses (call_backward false)) w
  = (inr (), before_averaging use_amp losses models w).
Proof. apply backward_phase. Qed.

(** A loop whose body raises or leaves the world alone. *)
Lemma for__guard {A} (body : A → M T Loss L unit) (raises : A → bool)
    (l : list A) w :
  (∀ x, x ∈ l →
        body x w = (if raises x then inl IndexError else inr (), w)) →
  for_ l body w
  = (if existsb raises l then inl IndexError else inr (), w).
Proof.
  induction l as [|x l IH]; intros Hbody; [done|].
  cbn [for_ existsb]. unfold bind at 1.
  rewrite Hbody by apply list_elem_of_here.
  destruct (raises x); [done|]. cbn [orb].
  apply IH. intros y Hy. apply Hbody. by right.
Qed.

Lemma average_tuple_without_devices (tup : list loc) w :
  average_tuple [] tup w
  = (if bool_decide (is_Some (mapM (grad_of (heap w)) tup))
     then inl IndexError else inr (), w).
Proof.
  unfold average_tuple, bind, read.
  destruct (mapM (grad_of (heap w)) tup) as [gs|].
  - by rewrite bool_decide_eq_true_2.
  - rewrite bool_decide_eq_false_2; [done|]. by intros [? ?].
Qed.

(** X17. Without a model the step raises [IndexError], but only at
    [models[0]]: every backward pass has run by then (and, under AMP, the
    scaler has unscaled), every device has been synchronized, and neither
    the clipping nor a step has happened. *)
Theorem step_without_models (losses : list Loss) (devices : list device)
    (clip : F) (use_amp : bool) w :
  let w1 := backward_pass use_amp losses w in
  _backward_and_step_multi_gpu losses [] devices clip use_amp w
  = (inl IndexError,
     World (heap w1) (lib w1) (trace w1 ++ (EvSynchronize <$> devices))).
Proof.
  cbn zeta. unfold _backward_and_step_multi_gpu.
  erewrite bind_returns; [|apply before_averaging_run].
  erewrite bind_returns; [|apply synchronize_phase].
  unfold before_averaging. cbn [drop concat foldl].
  by destruct use_amp.
Qed.

Lemma step_without_devices_run (losses : list Loss) model_0 secondaries
    (clip : F) (use_amp : bool) w :
  _backward_and_step_multi_gpu losses (model_0 :: secondaries) [] clip
    use_amp w
  = match
      (if existsb
            (λ tup, bool_decide
                      (is_Some
                         (mapM (grad_of
                                  (heap (before_averaging use_amp losses
                                           (model_0 :: secondaries) w)))
                               tup)))
            (zip_star (model_0 :: secondaries))
       then inl IndexError else inr ())
    with
    | inr _ =>
        (inr (gradient_norm model_0
                (heap (before_averaging use_amp losses
                         (model_0 :: secondaries) w))),
         clip_then_step use_amp model_0 clip
           (before_averaging use_amp losses (model_0 :: secondaries) w))
    | inl e =>
        (inl e, before_averaging use_amp losses (model_0 :: secondaries) w)
    end.
Proof.
  set (w2 := before_averaging use_amp losses (model_0 :: secondaries) w).
  unfold _backward_and_step_multi_gpu.
  erewrite bind_returns; [|apply before_averaging_run].
  fold w2. cbn [for_]. unfold bind at 1, ret at 1.
  unfold bind at 1.
  rewrite (for__guard (average_tuple [])
             (λ tup, bool_decide (is_Some (mapM (grad_of (heap w2)) tup))))
    by (intros tup _; apply average_tuple_without_devices).
  destruct (existsb _ _); [done|].
  unfold clip_then_step. by destruct use_amp.
Qed.

Lemma complete_tuple_exists (tuples : list (list loc)) h :
  existsb (λ tup, bool_decide (is_Some (mapM (grad_of h) tup))) tuples = true
  ↔ ∃ tup, tup ∈ tuples ∧ is_Some (mapM (grad_of h) tup).
Proof.
  rewrite existsb_exists. split.
  - intros (tup & Hin & Hc). exists tup.
    split; [by apply list_elem_of_In|by apply bool_decide_eq_true in Hc].
  - intros (tup & Hin & Hc). exists tup.
    split; [by apply list_elem_of_In|by apply bool_decide_eq_true].
Qed.

(** X18. Without a device the step needs [devices[0]] only to average:
    when no tuple of corresponding parameters has a gradient on every
    replica, the step runs to its end on the gradients as they are; and
    when some tuple has, it raises [IndexError] before any gradient is
    overwritten and before the clipping and the step. *)
Theorem step_without_devices (losses : list Loss) model_0 secondaries
    (clip : F) (use_amp : bool) w :
  let models := model_0 :: secondaries in
  let w2 := before_averaging use_amp losses models w in
  let run := _backward_and_step_multi_gpu losses models [] clip use_amp w in
  ((∀ tup, tup ∈ zip_star models → mapM (grad_of (heap w2)) tup = None) →
   run = (inr (gradient_norm model_0 (heap w2)),
          clip_then_step use_amp model_0 clip w2)) ∧
  ((∃ tup, tup ∈ zip_star models ∧ is_Some (mapM (grad_of (heap w2)) tup)) →
   run = (inl IndexError, w2)).
Proof.
  intros models w2 run. subst run models.
  rewrite (step_without_devices_run losses model_0 secondaries clip use_amp w).
  fold w2.
  pose proof (complete_tuple_exists (zip_star (model_0 :: secondaries))
                (heap w2)) as Hex.
  destruct (existsb _ _).
  - split; [|done]. intros Hnone.
    destruct (proj1 Hex eq_refl) as (tup & Hin & [gs Hgs]).
    by rewrite (Hnone tup Hin) in Hgs.
  - split; [done|]. intros Hsome. by apply Hex in Hsome.
Qed.

(** *** One replica: the multi-GPU step against the single-GPU step *)

Lemma single_gpu_run (loss : Loss) model (clip : F) (use_amp : bool) w :
  _backward_and_step_single_gpu loss model clip use_amp w
  = (inr (gradient_norm model (heap (backward_pass use_amp [loss] w))),
     clip_then_step use_amp model clip (backward_pass use_amp [loss] w)).
Proof.
  unfold _backward_and_step_single_gpu, backward_pass, clip_then_step.
  by destruct use_amp.
Qed.

Lemma clip_then_step_store (use_amp : bool) model (clip : F) w w' :
  heap w = heap w' → lib w = lib w' →
  heap (clip_then_step use_amp model clip w)
  = heap (clip_then_step use_amp model clip w') ∧
  lib (clip_then_step use_amp model clip w)
  = lib (clip_then_step use_amp model clip w').
Proof.
  intros Hh Hl.
  unfold clip_then_step, scaler_update_step, scaler_step_step,
    optimizer_step_step, clip_step. cbn [log set_heap heap lib trace].
  rewrite Hh, Hl. destruct use_amp.
  - by destruct (scaler_step _ _).
  - by destruct (optimizer_step _ _).
Qed.

(** A loop whose body returns and keeps the store and the library
    state. *)
Lemma for__keeps {A} (body : A → M T Loss L unit) (l : list A) w :
  (∀ x, x ∈ l → ∀ w0, ∃ w', body x w0 = (inr (), w') ∧
                            heap w' = heap w0 ∧ lib w' = lib w0) →
  ∃ w', for_ l body w = (inr (), w') ∧ heap w' = heap w ∧ lib w' = lib w.
Proof.
  revert w. induction l as [|x l IH]; intros w Hbody; [by exists w|].
  destruct (Hbody x (list_elem_of_here _ _) w) as (w1 & Hx & Hh1 & Hl1).
  destruct (IH w1) as (w2 & Hl & Hh2 & Hl2).
  { intros y Hy. apply Hbody. by right. }
  exists w2. cbn [for_]. unfold bind at 1. rewrite Hx.
  split; [done|]. split; congruence.
Qed.

Lemma average_single (d : device) p w :
  (∀ x : T, stack_mean [x] = x) →
  ∃ w', average_tuple [d] [p] w = (inr (), w') ∧
        heap w' = heap w ∧ lib w' = lib w.
Proof.
  intros Hmean. unfold average_tuple, bind, read. cbn.
  destruct (grad_of (heap w) p) as [g|] eqn:Hg; cbn; [|by exists w].
  eexists. split; [reflexivity|]. cbn. split; [|done].
  apply alter_id. intros x Hx. unfold grad_of in Hg. rewrite Hx in Hg.
  cbn in Hg. destruct x as [dt gr]. cbn in *. subst gr. cbn.
  unfold copy_, mean_stacked. cbn. rewrite Hmean. by destruct g.
Qed.

Lemma zip_star_single model tup :
  tup ∈ zip_star [model] → ∃ p, tup = [p].
Proof.
  unfold zip_star. intros (j & _ & Hcol)%list_elem_of_omap.
  unfold column_at in Hcol. cbn in Hcol.
  destruct (model !! j) as [p|]; [|done]. cbn in Hcol.
  injection Hcol as <-. by exists p.
Qed.

(** X19. On one replica and one device the multi-GPU step is the
    single-GPU step: when the mean of a single stacked tensor is that
    tensor, both return the same norm and leave the same parameters,
    gradients, optimizer and scaler; the averaging changes nothing. *)
Theorem step_on_one_replica (loss : Loss) model (d : device) (clip : F)
    (use_amp : bool) w :
  (∀ x : T, stack_mean [x] = x) →
  let single := _backward_and_step_single_gpu loss model clip use_amp w in
  let multi :=
    _backward_and_step_multi_gpu [loss] [model] [d] clip use_amp w in
  multi.1 = single.1 ∧
  heap multi.2 = heap single.2 ∧ lib multi.2 = lib single.2.
Proof.
  intros Hmean single multi. subst single multi.
  rewrite single_gpu_run. unfold _backward_and_step_multi_gpu.
  erewrite bind_returns; [|apply before_averaging_run].
  unfold before_averaging. cbn [drop concat foldl].
  set (w1 := backward_pass use_amp [loss] w).
  replace (if use_amp then w1 else w1) with w1 by (by destruct use_amp).
  erewrite bind_returns; [|apply synchronize_phase].
  set (w2 := World (heap w1) (lib w1) _).
  destruct (for__keeps (average_tuple [d]) (zip_star [model]) w2)
    as (w3 & Havg & Hh & Hl).
  { intros tup [p ->]%zip_star_single w0. by apply average_single. }
  erewrite bind_returns; [|exact Havg].
  erewrite bind_returns; [|reflexivity].
  erewrite bind_returns; [|reflexivity].
  erewrite bind_returns; [|reflexivity].
  assert (Hstore :
    heap (clip_then_step use_amp model clip w3)
    = heap (clip_then_step use_amp model clip w1) ∧
    lib (clip_then_step use_amp model clip w3)
    = lib (clip_then_step use_amp model clip w1))
    by (by apply clip_then_step_store).
  assert (Hnorm : gradient_norm model (heap w3) = gradient_norm model (heap w1))
    by (by rewrite Hh).
  unfold clip_then_step in Hstore.
  destruct use_amp; cbn [fst snd]; rewrite Hnorm; split; try done;
    unfold bind, call_scaler_step, call_scaler_update, call_optimizer_step,
      update, ret; cbn [fst snd]; exact Hstore.
Qed.

(** *** When the multi-GPU step raises *)

Lemma for__returns {A} (body : A → M T Loss L unit) (l : list A) w :
  (∀ x, x ∈ l → ∀ w0, ∃ w', body x w0 = (inr (), w')) →
  ∃ w', for_ l body w = (inr (), w').
Proof.
  revert w. induction l as [|x l IH]; intros w Hbody; [by exists w|].
  destruct (Hbody x (list_elem_of_here _ _) w) as (w1 & Hx).
  destruct (IH w1) as (w2 & Hl).
  { intros y Hy. apply Hbody. by right. }
  exists w2. cbn [for_]. unfold bind at 1. by rewrite Hx.
Qed.

Lemma step_with_a_device_returns (losses : list Loss) model_0 secondaries
    (d0 : device) (ds : list device) (clip : F) (use_amp : bool) w :
  ∃ norm w',
    _backward_and_step_multi_gpu losses (model_0 :: secondaries) (d0 :: ds)
      clip use_amp w = (inr norm, w').
Proof.
  unfold _backward_and_step_multi_gpu.
  erewrite bind_returns; [|apply before_averaging_run].
  erewrite bind_returns; [|apply synchronize_phase].
  match goal with
  | |- context [bind (for_ (zip_star ?ms) (average_tuple ?dv)) _ ?w0] =>
      destruct (for__returns (average_tuple dv) (zip_star ms) w0)
        as (w3 & Havg)
  end.
  { intros tup Htup w0. apply zip_star_head in Htup as [p0 Hp0].
    unfold average_tuple, bind, read.
    destruct (mapM (grad_of (heap w0)) tup) as [gs|]; [|by eexists].
    destruct tup as [|p0' tup]; [done|]. cbn. by eexists. }
  erewrite bind_returns; [|exact Havg].
  erewrite bind_returns; [|reflexivity].
  erewrite bind_returns; [|reflexivity].
  erewrite bind_returns; [|reflexivity].
  destruct use_amp; by eexists _, _.
Qed.

(** X24. The multi-GPU step raises in two situations only (the calls to
    the library apart): there is no model; or there is no device and some
    tuple of corresponding parameters has a gradient on every replica
    after the backward passes.  In every other case it returns a norm:
    replicas of different lengths, or that share parameter objects, do
    not make it raise. *)
Theorem step_raises_iff (losses : list Loss) models (devices : list device)
    (clip : F) (use_amp : bool) w :
  let run := _backward_and_step_multi_gpu losses models devices clip use_amp
               w in
  let w2 := before_averaging use_amp losses models w in
  (run.1 = inl IndexError
   ↔ models = [] ∨
     (devices = [] ∧
      ∃ tup, tup ∈ zip_star models ∧
             is_Some (mapM (grad_of (heap w2)) tup))) ∧
  (run.1 ≠ inl IndexError → ∃ norm, run.1 = inr norm).
Proof.
  intros run w2. subst run.
  destruct models as [|model_0 secondaries].
  { assert (Hrun :
      (_backward_and_step_multi_gpu losses [] devices clip use_amp w).1
      = inl IndexError).
    { unfold _backward_and_step_multi_gpu.
      erewrite bind_returns; [|apply before_averaging_run].
      erewrite bind_returns; [|apply synchronize_phase]. done. }
    rewrite Hrun. split; [|done]. split; [by left|done]. }
  destruct devices as [|d0 ds].
  - rewrite (step_without_devices_run losses model_0 secondaries clip
               use_amp w).
    fold w2.
    pose proof (complete_tuple_exists (zip_star (model_0 :: secondaries))
                  (heap w2)) as Hex.
    destruct (existsb _ _); cbn [fst].
    + split; [|done]. split; [|done]. intros _. right. split; [done|].
      by apply Hex.
    + split; [|by eexists]. split; [done|].
      intros [?|[_ Hsome]]; [done|]. by apply Hex in Hsome.
  - destruct (step_with_a_device_returns losses model_0 secondaries d0 ds
                clip use_amp w) as (norm & w' & Hrun).
    rewrite Hrun. cbn [fst]. split; [|by eexists]. split; [done|].
    by intros [?|[? _]].
Qed.

(** *** [_sync_models] on any list of models *)

Lemma foldl_alter_other (f : parameter T → parameter T) ps h p :
  p ∉ ps → foldl (λ h' q, alter f q h') h ps !! p = h !! p.
Proof.
  revert h. induction ps as [|q ps IH]; intros h Hp; [done|].
  apply not_elem_of_cons in Hp as [Hne Hp]. cbn [foldl].
  rewrite IH by done. by rewrite lookup_alter_ne.
Qed.

Lemma foldl_alter_placement (f : parameter T → parameter T) ps h p :
  (∀ x, placement (f x) = placement x) →
  placement <$> foldl (λ h' q, alter f q h') h ps !! p = placement <$> h !! p.
Proof.
  intros Hf. revert h. induction ps as [|q ps IH]; intros h; [done|].
  cbn [foldl]. rewrite IH. destruct (decide (p = q)) as [->|Hne].
  - rewrite lookup_alter_eq. destruct (h !! q) as [x|]; [|done].
    cbn. by rewrite Hf.
  - by rewrite lookup_alter_ne.
Qed.

Lemma copy_data_step_placement p0 p w l :
  placement <$> heap (copy_data_step p0 p w) !! l
  = placement <$> heap w !! l.
Proof.
  unfold copy_data_step.
  destruct (heap w !! p0) as [src|]; [|done].
  destruct (heap w !! p) as [dst|] eqn:Hdst; [|done]. cbn.
  destruct (decide (l = p)) as [->|Hl].
  - by rewrite lookup_insert_eq, Hdst.
  - by rewrite lookup_insert_ne.
Qed.

Lemma copy_fold_placement (pairs : list (loc * loc)) w l :
  placement
    <$> heap (foldl (λ w' pp, copy_data_step pp.1 pp.2 w') w pairs) !! l
  = placement <$> heap w !! l.
Proof.
  revert w. induction pairs as [|pp pairs IH]; intros w; [done|].
  cbn [foldl]. by rewrite IH, copy_data_step_placement.
Qed.

Lemma zero_param_placement (x : parameter T) :
  placement (zero_param x) = placement x.
Proof. by destruct x as [d [g|]]. Qed.

(** What the call does, for a primary and any secondaries. *)
Lemma sync_models_run model_0 secondaries w :
  let pairs := concat (zip model_0 <$> secondaries) in
  let w1 := foldl (λ w' pp, copy_data_step pp.1 pp.2 w') w pairs in
  _sync_models (model_0 :: secondaries) w
  = (inr (), foldl (λ w' p, zero_grad_step p w') w1 (concat secondaries)).
Proof.
  intros pairs w1. unfold _sync_models.
  erewrite bind_returns; [cbn [drop]; apply for__nested|].
  cbn [drop]. subst w1 pairs.
  rewrite <- foldl_concat, foldl_fmap.
  apply (for__update (λ m w', foldl (λ w'' pp, copy_data_step pp.1 pp.2 w'')
                                    w' (zip model_0 m))).
  intros m _ w'. unfold index. cbn.
  by apply (for__update (λ pp, copy_data_step pp.1 pp.2)).
Qed.

Lemma sync_models_frame models w :
  ∃ w', _sync_models models w = (inr (), w') ∧
        lib w' = lib w ∧
        (∀ p, p ∉ concat (drop 1 models) → heap w' !! p = heap w !! p) ∧
        (∀ p, placement <$> heap w' !! p = placement <$> heap w !! p) ∧
        (length models ≤ 1 → w' = w).
Proof.
  destruct models as [|model_0 secondaries].
  { exists w. by split_and!. }
  set (pairs := concat (zip model_0 <$> secondaries)).
  set (w1 := foldl (λ w' pp, copy_data_step pp.1 pp.2 w') w pairs).
  set (w2 := foldl (λ w' p, zero_grad_step p w') w1 (concat secondaries)).
  assert (Hw2 : w2 = World
            (foldl (λ h' q, alter zero_param q h') (heap w1)
                   (concat secondaries))
            (lib w1)
            (trace w1
             ++ (EvZeroGrad
                   <$> filter (λ p, is_Some (grad_of (heap w1) p))
                              (concat secondaries)))).
  { apply (guarded_alter_loop zero_param EvZeroGrad).
    - apply zero_param_is_Some.
    - apply zero_param_without_grad. }
  exists w2. split; [apply sync_models_run|]. cbn [drop].
  rewrite Hw2. cbn [heap lib]. split_and!.
  - apply copy_fold_lib.
  - intros p Hp. rewrite foldl_alter_other by done.
    apply copy_fold_other. intros Hp'%pairs_snd_elem. by apply Hp.
  - intros p. rewrite foldl_alter_placement by apply zero_param_placement.
    apply copy_fold_placement.
  - intros Hlen. destruct secondaries as [|? ?]; [|cbn in Hlen; lia].
    by rewrite <- Hw2.
Qed.

(** X20. Calls into the library apart, [_sync_models] never raises,
    whatever list it is given (a parameter object shared between
    replicas, or replicas of different lengths, included).  It leaves the optimizer and the scaler alone,
    changes no parameter object outside the secondaries, moves no data and
    no gradient to another device, creates and drops no gradient, and
    does nothing at all to a list of fewer than two models. *)
Theorem sync_models_never_raises models w :
  ∃ w', _sync_models models w = (inr (), w') ∧
        lib w' = lib w ∧
        (∀ p, p ∉ concat (drop 1 models) → heap w' !! p = heap w !! p) ∧
        (∀ p, placement <$> heap w' !! p = placement <$> heap w !! p) ∧
        (length models ≤ 1 → w' = w).
Proof. apply sync_models_frame. Qed.

(** X21. Synchronizing does not change the gradient norm of the primary:
    when no parameter object of the primary is also one of a secondary,
    [calculate_gradient_norm] of the primary returns after
    [_sync_models] what it returned before. *)
Theorem sync_models_keeps_primary_norm model_0 secondaries w :
  (∀ p, p ∈ model_0 → p ∉ concat secondaries) →
  ∃ w', _sync_models (model_0 :: secondaries) w = (inr (), w') ∧
        (calculate_gradient_norm model_0 w').1
        = (calculate_gradient_norm model_0 w).1.
Proof.
  intros Hdisj.
  destruct (sync_models_frame (model_0 :: secondaries) w)
    as (w' & Hrun & _ & Hother & _).
  exists w'. split; [exact Hrun|].
  unfold calculate_gradient_norm, read. cbn [fst]. f_equal.
  apply gradient_norm_ext. intros p Hp.
  unfold grad_of. by rewrite (Hother p (Hdisj p Hp)).
Qed.

End Replicas.

(** *** The definitions at work on two small replicas *)

Example step_without_devices_raises_unchanged :
  _backward_and_step_multi_gpu (torch := integer_library) [tt]
    two_replicas [] 1%Z false two_replicas_world
  = (inl IndexError,
     World (heap two_replicas_world) tt [EvBackward false tt]).
Proof. vm_compute. reflexivity. Qed.

Lemma integer_mean_of_one (x : Z) :
  stack_mean (Library := integer_library) [x] = x.
Proof. cbn. rewrite Z.add_0_r. apply Z.div_1_r. Qed.

Lemma gradient_norm_of_gradients_witness :
  (∀ p, p ∈ [0; 1] →
        payload <$> grad_of (heap two_replicas_world) p
        = payload <$> grad_of (heap two_replicas_world) p) ∧
  gradient_norm (torch := integer_library)
    (filter (λ p, is_Some (grad_of (heap two_replicas_world) p)) [0; 1])
    (heap two_replicas_world)
  = gradient_norm (torch := integer_library) [0; 1]
      (heap two_replicas_world).
Proof.
  assert (H : ∀ p, p ∈ [0; 1] →
                payload <$> grad_of (heap two_replicas_world) p
                = payload <$> grad_of (heap two_replicas_world) p)
    by reflexivity.
  split; [exact H|].
  exact (proj2 (gradient_norm_of_gradients (torch := integer_library)
                  [0; 1] (heap two_replicas_world)
                  (heap two_replicas_world) H)).
Defined.

Lemma step_on_one_replica_witness :
  (∀ x : Z, stack_mean (Library := integer_library) [x] = x) ∧
  (_backward_and_step_multi_gpu (torch := integer_library) [tt] [[0; 1]]
     [0] 1%Z true two_replicas_world).1
  = (_backward_and_step_single_gpu (torch := integer_library) tt [0; 1]
       1%Z true two_replicas_world).1.
Proof.
  split; [exact integer_mean_of_one|].
  exact (proj1 (step_on_one_replica (torch := integer_library) tt [0; 1] 0
                  1%Z true two_replicas_world integer_mean_of_one)).
Defined.

Lemma primary_apart_from_secondary :
  ∀ p : loc, p ∈ [0; 1] → p ∉ concat [[2; 3]].
Proof.
  intros p Hp Hq. cbn in Hq.
  repeat (apply elem_of_cons in Hp as [->|Hp];
          [repeat (apply elem_of_cons in Hq as [Hq|Hq]; [discriminate|]);
           by apply elem_of_nil in Hq|]).
  by apply elem_of_nil in Hp.
Defined.

Lemma sync_models_keeps_primary_norm_witness :
  (∀ p : loc, p ∈ [0; 1] → p ∉ concat [[2; 3]]) ∧
  ∃ w', _sync_models (torch := integer_library) two_replicas
          two_replicas_world = (inr (), w') ∧
        (calculate_gradient_norm (torch := integer_library) [0; 1] w').1
        = (calculate_gradient_norm (torch := integer_library) [0; 1]
             two_replicas_world).1.
Proof.
  split; [exact primary_apart_from_secondary|].
  exact (sync_models_keeps_primary_norm (torch := integer_library) [0; 1]
           [[2; 3]] two_replicas_world primary_apart_from_secondary).
Defined.

End TorchFacts.

Module LossesSpec.

Import Torch Losses.

Section Computing.

Context {Mdl In Tgt Out Loss St : Type}.
Context (forward : bool → Mdl → In → St → Out * St).
Context (criterion : bool → Out → Tgt → Z → Z → St → Loss * St).

Lemma losses_from_paired (autocast : bool) (models : list Mdl)
    (inputs : list In) (targets : list Tgt) (cs ts : Z) (i : nat)
    (losses : list Loss) (s : St) :
  i + length models ≤ length inputs →
  i + length models ≤ length targets →
  losses_from forward criterion autocast i models inputs targets cs ts
    losses s
  = let r := foldl (λ acc r,
                     let '(loss, s') :=
                       loss_of forward criterion autocast cs ts
                         r.1 r.2.1 r.2.2 acc.2
                     in (acc.1 ++ [loss], s'))
                   (losses, s)
                   (zip models (zip (drop i inputs) (drop i targets))) in
    (inr r.1, r.2).
Proof.
  revert i losses s. induction models as [|model models IH];
    intros i losses s Hin Htg; [done|].
  cbn [length] in Hin, Htg. cbn [losses_from].
  destruct (lookup_lt_is_Some_2 inputs i) as [x Hx]; [lia|].
  destruct (lookup_lt_is_Some_2 targets i) as [t Ht]; [lia|].
  rewrite Hx, Ht, (drop_S _ _ _ Hx), (drop_S _ _ _ Ht).
  cbn [zip zip_with foldl fst snd].
  destruct (loss_of forward criterion autocast cs ts model x t s)
    as [loss s2] eqn:Hloss.
  unfold loss_of in Hloss.
  destruct (forward autocast model x s) as [output s1]. rewrite Hloss.
  apply IH; lia.
Qed.

Lemma losses_from_raises (autocast : bool) (models : list Mdl)
    (inputs : list In) (targets : list Tgt) (cs ts : Z) (i : nat)
    (losses : list Loss) (s : St) :
  i ≤ length inputs → i ≤ length targets →
  length inputs < i + length models ∨ length targets < i + length models →
  (losses_from forward criterion autocast i models inputs targets cs ts
     losses s).1 = inl IndexError.
Proof.
  revert i losses s. induction models as [|model models IH];
    intros i losses s Hin Htg Hshort.
  { cbn in Hshort. lia. }
  cbn [length] in Hshort. cbn [losses_from].
  destruct (inputs !! i) as [x|] eqn:Hx; [|done].
  destruct (forward autocast model x s) as [output s1].
  destruct (targets !! i) as [t|] eqn:Ht; [|done].
  destruct (criterion autocast output t cs ts s1) as [loss s2].
  apply lookup_lt_Some in Hx, Ht. apply IH; lia.
Qed.

Lemma paired_losses_length (autocast : bool) (cs ts : Z)
    (rounds : list (Mdl * (In * Tgt))) (losses : list Loss) (s : St) :
  length (foldl (λ acc r,
                   let '(loss, s') :=
                     loss_of forward criterion autocast cs ts
                       r.1 r.2.1 r.2.2 acc.2
                   in (acc.1 ++ [loss], s'))
                (losses, s) rounds).1
  = length losses + length rounds.
Proof.
  revert losses s. induction rounds as [|r rounds IH]; intros losses s.
  { cbn. lia. }
  cbn [foldl fst snd]. destruct (loss_of _ _ _ _ _ _ _ _ _) as [loss s'].
  rewrite IH, length_app. cbn. lia.
Qed.

(** X22. With an input and a target for every replica, the call returns
    one loss per replica, in the order of the replicas: replica [i] runs
    on [inputs[i]] and its loss is taken against [targets[i]], and
    further inputs and targets are ignored.  With fewer inputs or targets
    than replicas it raises [IndexError]. *)
Theorem compute_losses_multi_gpu_spec (models : list Mdl)
    (inputs : list In) (targets : list Tgt) (current_step total_steps : Z)
    (use_amp : bool) (s : St) :
  let run :=
    _compute_losses_multi_gpu forward criterion models inputs targets
      current_step total_steps use_amp s in
  let paired :=
    paired_losses forward criterion use_amp current_step total_steps
      (zip models (zip inputs targets)) s in
  (length models ≤ length inputs ∧ length models ≤ length targets →
   run = (inr paired.1, paired.2) ∧ length paired.1 = length models) ∧
  (length inputs < length models ∨ length targets < length models →
   run.1 = inl IndexError).
Proof.
  cbn zeta. unfold _compute_losses_multi_gpu, paired_losses. split.
  - intros [Hin Htg]. split.
    + destruct use_amp; by rewrite losses_from_paired.
    + rewrite paired_losses_length, !length_zip_with. cbn. lia.
  - intros Hshort. destruct use_amp; apply losses_from_raises; lia.
Qed.

End Computing.

Example losses_of_two_replicas :
  _compute_losses_multi_gpu adding_forward difference_criterion
    [10; 20]%Z [1; 2; 3]%Z [5; 5]%Z 0 100 true 0
  = (inr [6; 17]%Z, 4).
Proof. reflexivity. Qed.

Example losses_without_a_target :
  _compute_losses_multi_gpu adding_forward difference_criterion
    [10; 20]%Z [1; 2; 3]%Z [5]%Z 0 100 false 0
  = (inl IndexError, 3).
Proof. reflexivity. Qed.

End LossesSpec.
